(** * File-backed private validator (privval/file.go)

    A shallow embedding of the signing oracle of [privval/file.go]: the
    last-sign watermark [FilePVLastSignState], its checker [CheckHRS], the
    loader [loadFilePV] and the two signing procedures [signVote] and
    [signProposal], followed by the properties of the anti-equivocation
    state machine.

    Conventions.
    - [int64], [int32] and [int8] values are integers of [Z]; the code only
      compares and copies them, it performs no arithmetic on them, so no
      wrap-around can occur.
    - A Go [[]byte] is [bytes]: [None] is the nil slice, [Some l] a non-nil
      slice with contents [l]. [len] and [bytes_Equal] do not distinguish nil
      from empty, [== nil] does.
    - An interface value ([crypto.PrivKey], [crypto.PubKey]) is an [option]:
      [None] is the nil interface, and a method call on it panics.
    - A procedure is a function from the program state to the program state
      and a [result]: a returned value, a returned [error], a panic, or the
      end of the process ([cmtos.Exit]).

    The file has the model first, then the vocabulary of the properties and
    a concrete set of collaborators at which the model runs, then the
    properties, and last the properties at concrete inputs. *)

From Stdlib Require Import ZArith List String Bool Lia Sorted.
From Stdlib.Strings Require Import Byte.
Import ListNotations.
Local Open Scope string_scope.
Local Open Scope list_scope.
Local Open Scope Z_scope.

Set Implicit Arguments.

(** ** Go values *)

Definition bytes : Type := option (list byte).

Definition contents (b : bytes) : list byte :=
  match b with
  | None => []
  | Some l => l
  end.

(** [len(b)] *)
Definition len (b : bytes) : Z := Z.of_nat (List.length (contents b)).

(** [b == nil] *)
Definition is_nil (b : bytes) : bool :=
  match b with
  | None => true
  | Some _ => false
  end.

(** [bytes.Equal(a, b)]: same length and same bytes; a nil argument is
    equivalent to an empty slice. *)
Definition bytes_Equal (a b : bytes) : bool :=
  if list_eq_dec byte_eq_dec (contents a) (contents b) then true else false.

(** The line feed that ends the messages of [cmtos.Exit]. *)
Definition newline : string := String (Ascii.ascii_of_nat 10) EmptyString.

(** ** Errors and results *)

(** The error values the package builds with [errors.New] and [fmt.Errorf],
    one constructor for each message, carrying the formatted arguments.
    [ErrCollaborator] is an error value returned by a collaborator
    ([PrivKey.Sign]). *)
Inductive error : Type :=
| ErrHeightRegression (got last : Z)
| ErrRoundRegression (height got last : Z)
| ErrStepRegression (height round got last : Z)
| ErrNoSignBytes
| ErrUnexpectedVoteExtension
| ErrConflictingData
| ErrCollaborator (msg : string)
| ErrSigningVote (e : error)
| ErrSigningProposal (e : error).

Inductive result (A : Type) : Type :=
| Ok (a : A)
| Err (e : error)
| Panic (msg : string)
| Exit (msg : string).

Arguments Ok {A} a.
Arguments Err {A} e.
Arguments Panic {A} msg.
Arguments Exit {A} msg.

Definition result_bind {A B : Type} (r : result A) (k : A -> result B) : result B :=
  match r with
  | Ok a => k a
  | Err e => Err e
  | Panic m => Panic m
  | Exit m => Exit m
  end.

(** ** Steps *)

Definition stepNone : Z := 0.
Definition stepPropose : Z := 1.
Definition stepPrevote : Z := 2.
Definition stepPrecommit : Z := 3.

(** [types.SignedMsgType], the type tag of a vote: the enumeration of the
    protobuf package. [voteToStep] and [signVote] only tell [PrevoteType] and
    [PrecommitType] from each other and from the rest, so a tag outside the
    enumeration behaves as [UnknownType] does. *)
Inductive SignedMsgType : Type :=
| UnknownType
| PrevoteType
| PrecommitType
| ProposalType.

Definition SignedMsgType_eqb (a b : SignedMsgType) : bool :=
  match a, b with
  | UnknownType, UnknownType => true
  | PrevoteType, PrevoteType => true
  | PrecommitType, PrecommitType => true
  | ProposalType, ProposalType => true
  | _, _ => false
  end.

(** ** The watermark *)

(** [FilePVLastSignState] *)
Record FilePVLastSignState : Type := mkLSS {
  Height : Z;
  Round : Z;
  Step : Z;
  Signature : bytes;
  SignBytes : bytes;
  lss_filePath : string
}.

(** The zero value [FilePVLastSignState{}] with the given path. *)
Definition emptyLSS (path : string) : FilePVLastSignState :=
  mkLSS 0 0 0 None None path.

(** [(lss *FilePVLastSignState) reset()] *)
Definition reset (lss : FilePVLastSignState) : FilePVLastSignState :=
  mkLSS 0 0 0 None None (lss_filePath lss).

(** [(lss *FilePVLastSignState) CheckHRS(height, round, step)] *)
Definition CheckHRS (lss : FilePVLastSignState) (height round step : Z) : result bool :=
  if Height lss >? height then Err (ErrHeightRegression height (Height lss))
  else if negb (Height lss =? height) then Ok false
  else if Round lss >? round then Err (ErrRoundRegression height round (Round lss))
  else if negb (Round lss =? round) then Ok false
  else if Step lss >? step then Err (ErrStepRegression height round step (Step lss))
  else if Step lss <? step then Ok false
  else if is_nil (SignBytes lss) then Err ErrNoSignBytes
  else if is_nil (Signature lss) then Panic "pv: Signature is nil but SignBytes is not!"
  else Ok true.

(** The triple [(height, round, step)] and its lexicographic order. *)
Definition HRS : Type := (Z * Z * Z)%type.

Definition hrs_of (lss : FilePVLastSignState) : HRS :=
  (Height lss, Round lss, Step lss).

Definition hrs_lt (a b : HRS) : Prop :=
  let '(h1, r1, s1) := a in
  let '(h2, r2, s2) := b in
  h1 < h2 \/ (h1 = h2 /\ (r1 < r2 \/ (r1 = r2 /\ s1 < s2))).

(** ** Collaborators

    The signature scheme, the protobuf types with their canonical encoder, the
    file system and the JSON codec live outside [privval/file.go]; the
    development is parametric in them. *)

(** [crypto.PrivKey] and [crypto.PubKey]. An [error] returned by [Sign] is
    kept as its message. *)
Class SignatureScheme : Type := {
  crypto_PrivKey : Type;
  crypto_PubKey : Type;
  PrivKey_Sign : crypto_PrivKey -> bytes -> bytes + string;
  PrivKey_PubKey : crypto_PrivKey -> crypto_PubKey;
  PubKey_Address : crypto_PubKey -> bytes
}.

(** [cmtproto.BlockID], [time.Time] and [types.ProtoBlockIDIsNil]. *)
Class ProtoTypes : Type := {
  BlockID : Type;
  time_Time : Type;
  ProtoBlockIDIsNil : BlockID -> bool
}.

Section Messages.
Context {PT : ProtoTypes}.

(** [cmtproto.Vote] *)
Record Vote : Type := mkVote {
  Vote_Type : SignedMsgType;
  Vote_Height : Z;
  Vote_Round : Z;
  Vote_BlockID : BlockID;
  Vote_Timestamp : time_Time;
  Vote_ValidatorAddress : bytes;
  Vote_ValidatorIndex : Z;
  Vote_Signature : bytes;
  Vote_Extension : bytes;
  Vote_ExtensionSignature : bytes;
  Vote_NonRpExtension : bytes;
  Vote_NonRpExtensionSignature : bytes
}.

(** [cmtproto.Proposal] *)
Record Proposal : Type := mkProposal {
  Proposal_Type : SignedMsgType;
  Proposal_Height : Z;
  Proposal_Round : Z;
  Proposal_PolRound : Z;
  Proposal_BlockID : BlockID;
  Proposal_Timestamp : time_Time;
  Proposal_Signature : bytes
}.

(** [vote.Signature = sig] *)
Definition set_Vote_Signature (sig : bytes) (v : Vote) : Vote :=
  mkVote (Vote_Type v) (Vote_Height v) (Vote_Round v) (Vote_BlockID v)
    (Vote_Timestamp v) (Vote_ValidatorAddress v) (Vote_ValidatorIndex v)
    sig (Vote_Extension v) (Vote_ExtensionSignature v)
    (Vote_NonRpExtension v) (Vote_NonRpExtensionSignature v).

(** [vote.Timestamp = t] *)
Definition set_Vote_Timestamp (t : time_Time) (v : Vote) : Vote :=
  mkVote (Vote_Type v) (Vote_Height v) (Vote_Round v) (Vote_BlockID v)
    t (Vote_ValidatorAddress v) (Vote_ValidatorIndex v)
    (Vote_Signature v) (Vote_Extension v) (Vote_ExtensionSignature v)
    (Vote_NonRpExtension v) (Vote_NonRpExtensionSignature v).

(** [vote.ExtensionSignature = extSig; vote.NonRpExtensionSignature = nonRpExtSig] *)
Definition set_Vote_ExtensionSignatures (extSig nonRpExtSig : bytes) (v : Vote) : Vote :=
  mkVote (Vote_Type v) (Vote_Height v) (Vote_Round v) (Vote_BlockID v)
    (Vote_Timestamp v) (Vote_ValidatorAddress v) (Vote_ValidatorIndex v)
    (Vote_Signature v) (Vote_Extension v) extSig
    (Vote_NonRpExtension v) nonRpExtSig.

(** [proposal.Signature = sig] *)
Definition set_Proposal_Signature (sig : bytes) (p : Proposal) : Proposal :=
  mkProposal (Proposal_Type p) (Proposal_Height p) (Proposal_Round p)
    (Proposal_PolRound p) (Proposal_BlockID p) (Proposal_Timestamp p) sig.

(** [proposal.Timestamp = t] *)
Definition set_Proposal_Timestamp (t : time_Time) (p : Proposal) : Proposal :=
  mkProposal (Proposal_Type p) (Proposal_Height p) (Proposal_Round p)
    (Proposal_PolRound p) (Proposal_BlockID p) t (Proposal_Signature p).

(** [voteToStep]. The panic message is kept without the vote type that
    [fmt.Sprintf] appends to it. *)
Definition voteToStep (vote : Vote) : result Z :=
  match Vote_Type vote with
  | PrevoteType => Ok stepPrevote
  | PrecommitType => Ok stepPrecommit
  | _ => Panic "Unknown vote type"
  end.
End Messages.

(** [types.VoteSignBytes], [types.VoteExtensionSignBytes] (the replay-protected
    and the non-replay-protected sign bytes), [types.ProposalSignBytes], the
    canonical messages with their [Timestamp] field, [protoio.UnmarshalDelimited]
    at the two canonical types, and [proto.Equal].

    [types.VoteSignBytes] and [types.ProposalSignBytes] canonicalize the block
    id of the message and panic on one that does not pass its validation:
    [VoteSignBytes_panic] and [ProposalSignBytes_panic] give the value of the
    panic, [None] for a message on which the call returns, and [VoteSignBytes]
    and [ProposalSignBytes] give the bytes it then returns. The canonical form
    of a vote extension has no block id. *)
Class CanonicalEncoder {PT : ProtoTypes} : Type := {
  VoteSignBytes : string -> Vote -> bytes;
  VoteSignBytes_panic : string -> Vote -> option string;
  VoteExtensionSignBytes : string -> Vote -> bytes * bytes;
  ProposalSignBytes : string -> Proposal -> bytes;
  ProposalSignBytes_panic : string -> Proposal -> option string;
  CanonicalVote : Type;
  CanonicalVote_Timestamp : CanonicalVote -> time_Time;
  CanonicalVote_set_Timestamp : time_Time -> CanonicalVote -> CanonicalVote;
  UnmarshalDelimited_CanonicalVote : bytes -> CanonicalVote + string;
  proto_Equal_CanonicalVote : CanonicalVote -> CanonicalVote -> bool;
  CanonicalProposal : Type;
  CanonicalProposal_Timestamp : CanonicalProposal -> time_Time;
  CanonicalProposal_set_Timestamp : time_Time -> CanonicalProposal -> CanonicalProposal;
  UnmarshalDelimited_CanonicalProposal : bytes -> CanonicalProposal + string;
  proto_Equal_CanonicalProposal : CanonicalProposal -> CanonicalProposal -> bool
}.

Section Keys.
Context {SS : SignatureScheme}.

(** [FilePVKey] *)
Record FilePVKey : Type := mkKey {
  Address : bytes;
  PubKey : option crypto_PubKey;
  PrivKey : option crypto_PrivKey;
  key_filePath : string
}.

(** [FilePV] *)
Record FilePV : Type := mkFilePV {
  Key : FilePVKey;
  LastSignState : FilePVLastSignState
}.

(** [pvKey.PrivKey.Sign(msg)] *)
Definition Key_Sign (pvKey : FilePVKey) (msg : bytes) : result bytes :=
  match PrivKey pvKey with
  | None => Panic "invalid memory address or nil pointer dereference"
  | Some sk =>
      match PrivKey_Sign sk msg with
      | inl sig => Ok sig
      | inr e => Err (ErrCollaborator e)
      end
  end.

(** [NewFilePV] *)
Definition NewFilePV (privKey : crypto_PrivKey) (keyFilePath stateFilePath : string)
  : FilePV :=
  mkFilePV
    (mkKey (PubKey_Address (PrivKey_PubKey privKey)) (Some (PrivKey_PubKey privKey))
       (Some privKey) keyFilePath)
    (mkLSS 0 0 stepNone None None stateFilePath).
End Keys.

(** [os.ReadFile] and [tempfile.WriteFileAtomic] (always called with mode
    [0o600]) over the state of the file system. A failed atomic write leaves
    the file system as it was. *)
Class FileSystem : Type := {
  FS : Type;
  os_ReadFile : FS -> string -> bytes + string;
  WriteFileAtomic : FS -> string -> bytes -> FS + string
}.

(** [cmtjson.MarshalIndent] and [cmtjson.Unmarshal] at the two records. *)
Class JSONCodec {SS : SignatureScheme} : Type := {
  MarshalIndent_LastSignState : FilePVLastSignState -> bytes + string;
  Unmarshal_LastSignState : bytes -> FilePVLastSignState + string;
  MarshalIndent_Key : FilePVKey -> bytes + string;
  Unmarshal_Key : bytes -> FilePVKey + string
}.

(** ** Program state and procedures *)

(** A record of what a signing call does, in the order in which it happens:
    [saveSigned] is entered, [Save] returns after a successful atomic write of
    the watermark, a signature is stored in the outgoing message. The record
    is kept beside the state of the program, which never reads it; the
    properties on the order of these steps are stated on it. *)
Inductive Event : Type :=
| EvSaveSigned (hrs : HRS) (signBytes sig : bytes)
| EvPersist (lss : FilePVLastSignState)
| EvSetSignature (sig : bytes).

Section Validator.
Context {SS : SignatureScheme} {PT : ProtoTypes} {CE : CanonicalEncoder}
        {OS : FileSystem} {JS : JSONCodec}.

(** The validator [pv], the message behind the pointer the caller passed,
    the file system, and the events so far. *)
Record State (Msg : Type) : Type := mkState {
  st_pv : FilePV;
  st_msg : Msg;
  st_fs : FS;
  st_trace : list Event
}.

Definition M (Msg A : Type) : Type := State Msg -> State Msg * result A.

Definition ret {Msg A : Type} (a : A) : M Msg A := fun st => (st, Ok a).

Definition bind {Msg A B : Type} (c : M Msg A) (k : A -> M Msg B) : M Msg B :=
  fun st =>
    match c st with
    | (st', Ok a) => k a st'
    | (st', Err e) => (st', Err e)
    | (st', Panic m) => (st', Panic m)
    | (st', Exit m) => (st', Exit m)
    end.

Definition lift {Msg A : Type} (r : result A) : M Msg A := fun st => (st, r).

Definition get_pv {Msg : Type} : M Msg FilePV := fun st => (st, Ok (st_pv st)).

Definition get_msg {Msg : Type} : M Msg Msg := fun st => (st, Ok (st_msg st)).

Definition modify_msg {Msg : Type} (f : Msg -> Msg) : M Msg unit :=
  fun st => (mkState (st_pv st) (f (st_msg st)) (st_fs st) (st_trace st), Ok tt).

Definition emit {Msg : Type} (ev : Event) : M Msg unit :=
  fun st => (mkState (st_pv st) (st_msg st) (st_fs st) (st_trace st ++ [ev]), Ok tt).

Notation "x <- c ;; k" := (bind c (fun x => k))
  (at level 61, c at next level, right associativity).
Notation "c ;;; k" := (bind c (fun _ => k))
  (at level 61, right associativity).

(** [(lss *FilePVLastSignState) Save()] on [pv.LastSignState]. *)
Definition LastSignState_Save {Msg : Type} : M Msg unit :=
  fun st =>
    let lss := LastSignState (st_pv st) in
    let outFile := lss_filePath lss in
    if String.eqb outFile "" then
      (st, Panic "cannot save FilePVLastSignState: filePath not set")
    else
      match MarshalIndent_LastSignState lss with
      | inr e => (st, Panic e)
      | inl jsonBytes =>
          match WriteFileAtomic (st_fs st) outFile jsonBytes with
          | inr e => (st, Panic e)
          | inl fs' =>
              (mkState (st_pv st) (st_msg st) fs' (st_trace st ++ [EvPersist lss]), Ok tt)
          end
      end.

(** [(pv *FilePV) saveSigned(height, round, step, signBytes, sig)] *)
Definition saveSigned {Msg : Type} (height round step : Z) (signBytes sig : bytes)
  : M Msg unit :=
  emit (EvSaveSigned (height, round, step) signBytes sig) ;;;
  (fun st =>
     let pv := st_pv st in
     let lss := mkLSS height round step sig signBytes (lss_filePath (LastSignState pv)) in
     (mkState (mkFilePV (Key pv) lss) (st_msg st) (st_fs st) (st_trace st), Ok tt)) ;;;
  LastSignState_Save.

(** [checkVotesOnlyDifferByTimestamp]; [now] is the value of [cmttime.Now()]. *)
Definition checkVotesOnlyDifferByTimestamp (now : time_Time)
    (lastSignBytes newSignBytes : bytes) : result (time_Time * bool) :=
  match UnmarshalDelimited_CanonicalVote lastSignBytes with
  | inr e => Panic ("LastSignBytes cannot be unmarshalled into vote: " ++ e)%string
  | inl lastVote =>
      match UnmarshalDelimited_CanonicalVote newSignBytes with
      | inr e => Panic ("signBytes cannot be unmarshalled into vote: " ++ e)%string
      | inl newVote =>
          let lastTime := CanonicalVote_Timestamp lastVote in
          let lastVote := CanonicalVote_set_Timestamp now lastVote in
          let newVote := CanonicalVote_set_Timestamp now newVote in
          Ok (lastTime, proto_Equal_CanonicalVote newVote lastVote)
      end
  end.

(** [checkProposalsOnlyDifferByTimestamp] *)
Definition checkProposalsOnlyDifferByTimestamp (now : time_Time)
    (lastSignBytes newSignBytes : bytes) : result (time_Time * bool) :=
  match UnmarshalDelimited_CanonicalProposal lastSignBytes with
  | inr e => Panic ("LastSignBytes cannot be unmarshalled into proposal: " ++ e)%string
  | inl lastProposal =>
      match UnmarshalDelimited_CanonicalProposal newSignBytes with
      | inr e => Panic ("signBytes cannot be unmarshalled into proposal: " ++ e)%string
      | inl newProposal =>
          let lastTime := CanonicalProposal_Timestamp lastProposal in
          let lastProposal := CanonicalProposal_set_Timestamp now lastProposal in
          let newProposal := CanonicalProposal_set_Timestamp now newProposal in
          Ok (lastTime, proto_Equal_CanonicalProposal newProposal lastProposal)
      end
  end.

(** The [if signExtension { ... }] block of [signVote]: the two extension
    signatures to store in the vote, or the error it returns. *)
Definition extensionSignatures (chainID : string) (pv : FilePV) (vote : Vote)
  : result (bytes * bytes) :=
  if SignedMsgType_eqb (Vote_Type vote) PrecommitType
     && negb (ProtoBlockIDIsNil (Vote_BlockID vote))
  then
    let '(extSignBytes, nonRpExtSignBytes) := VoteExtensionSignBytes chainID vote in
    result_bind (Key_Sign (Key pv) extSignBytes) (fun extSig =>
    result_bind (Key_Sign (Key pv) nonRpExtSignBytes) (fun nonRpExtSig =>
    Ok (extSig, nonRpExtSig)))
  else if (len (Vote_Extension vote) >? 0) || (len (Vote_NonRpExtension vote) >? 0)
  then Err ErrUnexpectedVoteExtension
  else Ok (None, None).

(** [types.VoteSignBytes(chainID, vote)] as [signVote] calls it: the sign
    bytes, or the panic of the encoder. *)
Definition types_VoteSignBytes (chainID : string) (vote : Vote) : result bytes :=
  match VoteSignBytes_panic chainID vote with
  | Some m => Panic m
  | None => Ok (VoteSignBytes chainID vote)
  end.

(** [types.ProposalSignBytes(chainID, proposal)] as [signProposal] calls it. *)
Definition types_ProposalSignBytes (chainID : string) (proposal : Proposal)
  : result bytes :=
  match ProposalSignBytes_panic chainID proposal with
  | Some m => Panic m
  | None => Ok (ProposalSignBytes chainID proposal)
  end.

(** [(pv *FilePV) signVote(chainID, vote, signExtension)] *)
Definition signVote (chainID : string) (signExtension : bool) (now : time_Time)
  : M Vote unit :=
  vote <- get_msg ;;
  let height := Vote_Height vote in
  let round := Vote_Round vote in
  step <- lift (voteToStep vote) ;;
  pv <- get_pv ;;
  let lss := LastSignState pv in
  sameHRS <- lift (CheckHRS lss height round step) ;;
  signBytes <- lift (types_VoteSignBytes chainID vote) ;;
  (if signExtension then
     sigs <- lift (extensionSignatures chainID pv vote) ;;
     modify_msg (set_Vote_ExtensionSignatures (fst sigs) (snd sigs))
   else ret tt) ;;;
  if sameHRS then
    if bytes_Equal signBytes (SignBytes lss) then
      modify_msg (set_Vote_Signature (Signature lss)) ;;;
      emit (EvSetSignature (Signature lss))
    else
      r <- lift (checkVotesOnlyDifferByTimestamp now (SignBytes lss) signBytes) ;;
      if snd r then
        modify_msg (set_Vote_Timestamp (fst r)) ;;;
        modify_msg (set_Vote_Signature (Signature lss)) ;;;
        emit (EvSetSignature (Signature lss))
      else lift (Err ErrConflictingData)
  else
    sig <- lift (Key_Sign (Key pv) signBytes) ;;
    saveSigned height round step signBytes sig ;;;
    modify_msg (set_Vote_Signature sig) ;;;
    emit (EvSetSignature sig).

(** [(pv *FilePV) signProposal(chainID, proposal)] *)
Definition signProposal (chainID : string) (now : time_Time) : M Proposal unit :=
  proposal <- get_msg ;;
  let height := Proposal_Height proposal in
  let round := Proposal_Round proposal in
  let step := stepPropose in
  pv <- get_pv ;;
  let lss := LastSignState pv in
  sameHRS <- lift (CheckHRS lss height round step) ;;
  signBytes <- lift (types_ProposalSignBytes chainID proposal) ;;
  if sameHRS then
    if bytes_Equal signBytes (SignBytes lss) then
      modify_msg (set_Proposal_Signature (Signature lss)) ;;;
      emit (EvSetSignature (Signature lss))
    else
      r <- lift (checkProposalsOnlyDifferByTimestamp now (SignBytes lss) signBytes) ;;
      if snd r then
        modify_msg (set_Proposal_Timestamp (fst r)) ;;;
        modify_msg (set_Proposal_Signature (Signature lss)) ;;;
        emit (EvSetSignature (Signature lss))
      else lift (Err ErrConflictingData)
  else
    sig <- lift (Key_Sign (Key pv) signBytes) ;;
    saveSigned height round step signBytes sig ;;;
    modify_msg (set_Proposal_Signature sig) ;;;
    emit (EvSetSignature sig).

(** A returned error wrapped by [fmt.Errorf]. *)
Definition wrap_error {Msg A : Type} (w : error -> error) (c : M Msg A) : M Msg A :=
  fun st =>
    match c st with
    | (st', Err e) => (st', Err (w e))
    | other => other
    end.

(** [(pv *FilePV) SignVote(chainID, vote, signExtension)] *)
Definition SignVote (chainID : string) (signExtension : bool) (now : time_Time)
  : M Vote unit :=
  wrap_error ErrSigningVote (signVote chainID signExtension now).

(** [(pv *FilePV) SignProposal(chainID, proposal)] *)
Definition SignProposal (chainID : string) (now : time_Time) : M Proposal unit :=
  wrap_error ErrSigningProposal (signProposal chainID now).

(** [(pv *FilePV) SignBytes(bytes)] *)
Definition SignBytes_ (pv : FilePV) (msg : bytes) : result bytes :=
  Key_Sign (Key pv) msg.

(** [loadFilePV] *)
Definition loadFilePV (fs : FS) (keyFilePath stateFilePath : string) (loadState : bool)
  : result FilePV :=
  match os_ReadFile fs keyFilePath with
  | inr e => Exit e
  | inl keyJSONBytes =>
      match Unmarshal_Key keyJSONBytes with
      | inr e =>
          Exit ("Error reading PrivValidator key from "
                    ++ keyFilePath ++ ": " ++ e ++ newline)%string
      | inl pvKey =>
          match PrivKey pvKey with
          | None => Panic "invalid memory address or nil pointer dereference"
          | Some sk =>
              let pub := PrivKey_PubKey sk in
              let pvKey := mkKey (PubKey_Address pub) (Some pub) (Some sk) keyFilePath in
              result_bind
                (if loadState then
                   match os_ReadFile fs stateFilePath with
                   | inr e => Exit e
                   | inl stateJSONBytes =>
                       match Unmarshal_LastSignState stateJSONBytes with
                       | inr e =>
                           Exit ("Error reading PrivValidator state from "
                                   ++ stateFilePath ++ ": " ++ e ++ newline)%string
                       | inl pvState => Ok pvState
                       end
                   end
                 else Ok (emptyLSS ""))
                (fun pvState =>
                   Ok (mkFilePV pvKey
                         (mkLSS (Height pvState) (Round pvState) (Step pvState)
                            (Signature pvState) (SignBytes pvState) stateFilePath)))
          end
      end
  end.

(** [LoadFilePV] *)
Definition LoadFilePV (fs : FS) (keyFilePath stateFilePath : string) : result FilePV :=
  loadFilePV fs keyFilePath stateFilePath true.

(** [LoadFilePVEmptyState] *)
Definition LoadFilePVEmptyState (fs : FS) (keyFilePath stateFilePath : string)
  : result FilePV :=
  loadFilePV fs keyFilePath stateFilePath false.
End Validator.

(** ** A validator serving a sequence of requests *)

Section Serving.
Context {SS : SignatureScheme} {PT : ProtoTypes} {CE : CanonicalEncoder}
        {OS : FileSystem} {JS : JSONCodec}.

(** A call of [SignVote] or [SignProposal] with the message it is given and
    the time at which it runs. *)
Inductive Request : Type :=
| ReqVote (chainID : string) (vote : Vote) (signExtension : bool) (now : time_Time)
| ReqProposal (chainID : string) (proposal : Proposal) (now : time_Time).

(** What outlives a call: the validator, the file system, the events. *)
Record Node : Type := mkNode {
  node_pv : FilePV;
  node_fs : FS;
  node_trace : list Event
}.

Definition node_of {Msg : Type} (st : State Msg) : Node :=
  mkNode (st_pv st) (st_fs st) (st_trace st).

Definition serve (req : Request) (n : Node) : Node * result unit :=
  match req with
  | ReqVote chainID vote signExtension now =>
      let out := SignVote chainID signExtension now
                   (mkState (node_pv n) vote (node_fs n) (node_trace n)) in
      (node_of (fst out), snd out)
  | ReqProposal chainID proposal now =>
      let out := SignProposal chainID now
                   (mkState (node_pv n) proposal (node_fs n) (node_trace n)) in
      (node_of (fst out), snd out)
  end.

(** The requests are served one after the other; a panic ends the process,
    and with it the sequence. *)
Fixpoint serve_all (reqs : list Request) (n : Node) : Node :=
  match reqs with
  | [] => n
  | req :: rest =>
      match serve req n with
      | (n', Ok _) => serve_all rest n'
      | (n', Err _) => serve_all rest n'
      | (n', Panic _) => n'
      | (n', Exit _) => n'
      end
  end.
End Serving.

(** The triples passed to [saveSigned], in the order of the calls. *)
Fixpoint saved_hrs (tr : list Event) : list HRS :=
  match tr with
  | [] => []
  | EvSaveSigned q _ _ :: rest => q :: saved_hrs rest
  | _ :: rest => saved_hrs rest
  end.

(** The triples of the watermarks written to the state file, in the order of
    the writes. *)
Fixpoint persisted_hrs (tr : list Event) : list HRS :=
  match tr with
  | [] => []
  | EvPersist lss :: rest => hrs_of lss :: persisted_hrs rest
  | _ :: rest => persisted_hrs rest
  end.


(** ** Saving and resetting the validator *)

Section Maintenance.
Context {SS : SignatureScheme} {OS : FileSystem} {JS : JSONCodec}.

(** [(pvKey FilePVKey) Save()] on [pv.Key]. *)
Definition FilePVKey_Save {Msg : Type} : M Msg unit :=
  fun st =>
    let pvKey := Key (st_pv st) in
    let outFile := key_filePath pvKey in
    if String.eqb outFile "" then
      (st, Panic "cannot save PrivValidator key: filePath not set")
    else
      match MarshalIndent_Key pvKey with
      | inr e => (st, Panic e)
      | inl jsonBytes =>
          match WriteFileAtomic (st_fs st) outFile jsonBytes with
          | inr e => (st, Panic e)
          | inl fs' => (mkState (st_pv st) (st_msg st) fs' (st_trace st), Ok tt)
          end
      end.

(** [(pv *FilePV) Save()]: the key file, then the state file. *)
Definition FilePV_Save {Msg : Type} : M Msg unit :=
  bind FilePVKey_Save (fun _ => LastSignState_Save).

(** [(pv *FilePV) GetAddress()] *)
Definition GetAddress (pv : FilePV) : bytes := Address (Key pv).

(** [(pv *FilePV) GetPubKey()] *)
Definition GetPubKey (pv : FilePV) : result (option crypto_PubKey) :=
  Ok (PubKey (Key pv)).

(** The identity of the validator is derived from its private key: the
    public key from the private key, the address from the public key. *)
Definition key_derived (pv : FilePV) : Prop :=
  exists sk : crypto_PrivKey,
    PrivKey (Key pv) = Some sk
    /\ GetPubKey pv = Ok (Some (PrivKey_PubKey sk))
    /\ GetAddress pv = PubKey_Address (PrivKey_PubKey sk).

(** [(pv *FilePV) Reset()] *)
Definition FilePV_Reset {Msg : Type} : M Msg unit :=
  bind
    (fun st =>
       (mkState (mkFilePV (Key (st_pv st)) (reset (LastSignState (st_pv st))))
          (st_msg st) (st_fs st) (st_trace st), Ok tt))
    (fun _ => FilePV_Save).
End Maintenance.

(** ** The signatures a validator hands out *)

Section Outputs.
Context {SS : SignatureScheme} {PT : ProtoTypes} {CE : CanonicalEncoder}
        {OS : FileSystem} {JS : JSONCodec}.

(** The triple of a request and the signature its message carries when the
    call has returned without an error. *)
Definition signed_by (req : Request) (n : Node) : option (HRS * bytes) :=
  match req with
  | ReqVote chainID vote signExtension now =>
      let out := SignVote chainID signExtension now
                   (mkState (node_pv n) vote (node_fs n) (node_trace n)) in
      match snd out, voteToStep vote with
      | Ok _, Ok step =>
          Some ((Vote_Height vote, Vote_Round vote, step),
                Vote_Signature (st_msg (fst out)))
      | _, _ => None
      end
  | ReqProposal chainID proposal now =>
      let out := SignProposal chainID now
                   (mkState (node_pv n) proposal (node_fs n) (node_trace n)) in
      match snd out with
      | Ok _ =>
          Some ((Proposal_Height proposal, Proposal_Round proposal, stepPropose),
                Proposal_Signature (st_msg (fst out)))
      | _ => None
      end
  end.

(** The signatures handed out while the requests are served one after the
    other, each with the triple it was asked for; a panic ends the
    sequence. *)
Fixpoint handed_out (reqs : list Request) (n : Node) : list (HRS * bytes) :=
  match reqs with
  | [] => []
  | req :: rest =>
      match serve req n with
      | (n', Ok _) =>
          match signed_by req n with
          | Some o => o :: handed_out rest n'
          | None => handed_out rest n'
          end
      | (n', Err _) => handed_out rest n'
      | (_, Panic _) => []
      | (_, Exit _) => []
      end
  end.
End Outputs.

Section OutputVocabulary.
Context {SS : SignatureScheme}.

(** The output lies above the watermark of [pv], or at it with the stored
    signature. *)
Definition at_or_above (pv : FilePV) (o : HRS * bytes) : Prop :=
  hrs_lt (hrs_of (LastSignState pv)) (fst o)
  \/ (fst o = hrs_of (LastSignState pv) /\ snd o = Signature (LastSignState pv)).

(** No triple comes with two signatures. *)
Definition one_signature_per_hrs (l : list (HRS * bytes)) : Prop :=
  forall (q : HRS) (s1 s2 : bytes), In (q, s1) l -> In (q, s2) l -> s1 = s2.
End OutputVocabulary.

(** The watermark has sign bytes and no signature: the state at which
    [CheckHRS] panics. *)
Definition corrupt (lss : FilePVLastSignState) : Prop :=
  SignBytes lss <> None /\ Signature lss = None.

(** ** The retrying signer client (privval/retry_signer_client.go) *)

(** An error returned by the wrapped [SignerClient]: a [*RemoteSignerError],
    the answer of the signer itself, or any other error. *)
Inductive client_error : Type :=
| RemoteSignerError (msg : string)
| OtherError (msg : string).

(** What a retried operation returns besides a value: the error of the signer
    as it came, or [fmt.Errorf("exhausted all attempts to ...: %w", err)] with
    the operation named in the message and the last error, nil when no
    attempt was made. *)
Inductive retry_error : Type :=
| ErrRemoteSigner (e : client_error)
| ErrExhausted (what : string) (last : option client_error).

Section Retry.
Context {SS : SignatureScheme}.

(** The state of everything the calls of the wrapped client act on (the
    connection, the signer at the other end, the message behind the pointer),
    and [time.Sleep] on it. *)
Variable World : Type.
Variable time_Sleep : Z -> World -> World.

(** [RetrySignerClient]; [next] is kept as the four operations of the wrapped
    client that are retried. *)
Record RetrySignerClient : Type := mkRetrySignerClient {
  next_GetPubKey : World -> World * (crypto_PubKey + client_error);
  next_SignVote : string -> bool -> World -> World * (unit + client_error);
  next_SignProposal : string -> World -> World * (unit + client_error);
  next_SignBytes : bytes -> World -> World * (bytes + client_error);
  retries : Z;
  timeout : Z
}.

(** The world after a retried operation, the number of calls made to the
    wrapped client, and what is returned. *)
Record Retried (A : Type) : Type := mkRetried {
  r_world : World;
  r_calls : nat;
  r_result : A + retry_error
}.

(** The loop the four operations share,
    [for i := 0; i < sc.retries || sc.retries == 0; i++ { ... }], from the
    iteration [i] on, with [err] the error of the last attempt and [calls] the
    number of attempts made. With [retries = 0] the loop has no bound:
    [fuel] bounds the number of attempts the model follows, and [None] is a
    loop still running when it is spent. *)
Fixpoint retry_loop {A : Type} (fuel : nat) (sc_retries sc_timeout : Z)
    (what : string) (op : World -> World * (A + client_error))
    (i : Z) (err : option client_error) (calls : nat) (w : World)
  : option (Retried A) :=
  if (i <? sc_retries) || (sc_retries =? 0) then
    match fuel with
    | O => None
    | S fuel' =>
        match op w with
        | (w', inl a) => Some (mkRetried w' (S calls) (inl a))
        | (w', inr (RemoteSignerError m)) =>
            Some (mkRetried w' (S calls) (inr (ErrRemoteSigner (RemoteSignerError m))))
        | (w', inr (OtherError m)) =>
            retry_loop fuel' sc_retries sc_timeout what op (i + 1)
              (Some (OtherError m)) (S calls) (time_Sleep sc_timeout w')
        end
    end
  else Some (mkRetried w calls (inr (ErrExhausted what err))).

Definition retry {A : Type} (fuel : nat) (sc : RetrySignerClient) (what : string)
    (op : World -> World * (A + client_error)) (w : World) : option (Retried A) :=
  retry_loop fuel (retries sc) (timeout sc) what op 0 None O w.

(** [(sc *RetrySignerClient) GetPubKey()] *)
Definition Retry_GetPubKey (fuel : nat) (sc : RetrySignerClient) (w : World)
  : option (Retried crypto_PubKey) :=
  retry fuel sc "get pubkey" (next_GetPubKey sc) w.

(** [(sc *RetrySignerClient) SignVote(chainID, vote, signExtension)] *)
Definition Retry_SignVote (fuel : nat) (sc : RetrySignerClient) (chainID : string)
    (signExtension : bool) (w : World) : option (Retried unit) :=
  retry fuel sc "sign vote" (next_SignVote sc chainID signExtension) w.

(** [(sc *RetrySignerClient) SignProposal(chainID, proposal)] *)
Definition Retry_SignProposal (fuel : nat) (sc : RetrySignerClient) (chainID : string)
    (w : World) : option (Retried unit) :=
  retry fuel sc "sign proposal" (next_SignProposal sc chainID) w.

(** [(sc *RetrySignerClient) SignBytes(bytes)] *)
Definition Retry_SignBytes (fuel : nat) (sc : RetrySignerClient) (msg : bytes)
    (w : World) : option (Retried bytes) :=
  retry fuel sc "sign bytes" (next_SignBytes sc msg) w.

(** [k] attempts in a row, from [w] on, fail with an error that is not the
    signer's own, each followed by the sleep; they lead to [w'], and [err] is
    the error of the last one, nil when [k] is 0. *)
Inductive fails_in_a_row {A : Type} (sc_timeout : Z)
    (op : World -> World * (A + client_error))
  : nat -> World -> World -> option client_error -> Prop :=
| fails_none (w : World) : fails_in_a_row sc_timeout op O w w None
| fails_again (k : nat) (w w1 w' : World) (m : string) (err : option client_error) :
    op w = (w1, inr (OtherError m)) ->
    fails_in_a_row sc_timeout op k (time_Sleep sc_timeout w1) w' err ->
    fails_in_a_row sc_timeout op (S k) w w'
      (match err with
       | Some e => Some e
       | None => Some (OtherError m)
       end).

(** What the loop returns for the answer of an attempt that ends it. *)
Definition returned {A : Type} (r : A + client_error) : A + retry_error :=
  match r with
  | inl a => inl a
  | inr e => inr (ErrRemoteSigner e)
  end.

(** The answer ends the loop: a value, or the error of the signer. *)
Definition decisive {A : Type} (r : A + client_error) : Prop :=
  match r with
  | inl _ => True
  | inr (RemoteSignerError _) => True
  | inr (OtherError _) => False
  end.
End Retry.

Section StateFile.
Context {SS : SignatureScheme} {PT : ProtoTypes} {CE : CanonicalEncoder}
        {OS : FileSystem} {JS : JSONCodec}.

(** A file that was written reads back as written, and the other files as
    before. *)
Definition read_after_write : Prop :=
  forall (fs : FS) (path : string) (data : bytes) (fs' : FS),
    WriteFileAtomic fs path data = inl fs' ->
    os_ReadFile fs' path = inl data
    /\ forall p : string, p <> path -> os_ReadFile fs' p = os_ReadFile fs p.

(** The codec reads the five fields of the watermark back from what it
    writes for it. *)
Definition reads_back (lss : FilePVLastSignState) : Prop :=
  forall b : bytes,
    MarshalIndent_LastSignState lss = inl b ->
    exists lss' : FilePVLastSignState,
      Unmarshal_LastSignState b = inl lss'
      /\ Height lss' = Height lss /\ Round lss' = Round lss /\ Step lss' = Step lss
      /\ Signature lss' = Signature lss /\ SignBytes lss' = SignBytes lss.

(** The files of the validator load, and to the watermark it holds. *)
Definition on_disk (n : Node) : Prop :=
  exists pv : FilePV,
    LoadFilePV (node_fs n) (key_filePath (Key (node_pv n)))
      (lss_filePath (LastSignState (node_pv n))) = Ok pv
    /\ LastSignState pv = LastSignState (node_pv n).

(** What a call does to the validator and the file system together: nothing,
    or it panics, or it sets a watermark and writes it to the state file. *)
Definition store_effect {Msg : Type} (st : State Msg) (out : State Msg * result unit)
  : Prop :=
  (st_pv (fst out) = st_pv st /\ st_fs (fst out) = st_fs st)
  \/ (exists m : string, snd out = Panic m)
  \/ (exists jsonBytes : bytes,
         MarshalIndent_LastSignState (LastSignState (st_pv (fst out))) = inl jsonBytes
         /\ WriteFileAtomic (st_fs st) (lss_filePath (LastSignState (st_pv st))) jsonBytes
            = inl (st_fs (fst out))
         /\ Key (st_pv (fst out)) = Key (st_pv st)
         /\ lss_filePath (LastSignState (st_pv (fst out)))
            = lss_filePath (LastSignState (st_pv st))).
End StateFile.

Section Generation.
Context {SS : SignatureScheme} {OS : FileSystem} {JS : JSONCodec}.

(** [cmtos.FileExists], and the key [ed25519.GenPrivKey()] returns when it is
    called. *)
Variable FileExists : FS -> string -> bool.
Variable ed25519_GenPrivKey : crypto_PrivKey.

(** [GenFilePV]; [keyGen] is nil, or what the generator returns when it is
    called: a key, which may be nil, or an error. *)
Definition GenFilePV (keyFilePath stateFilePath : string)
    (keyGen : option (option crypto_PrivKey + string)) : result FilePV :=
  let keyGen :=
    match keyGen with
    | None => inl (Some ed25519_GenPrivKey)
    | Some g => g
    end in
  match keyGen with
  | inr e => Err (ErrCollaborator e)
  | inl None => Panic "invalid memory address or nil pointer dereference"
  | inl (Some key) => Ok (NewFilePV key keyFilePath stateFilePath)
  end.

(** [LoadOrGenFilePV], with the file system it leaves. *)
Definition LoadOrGenFilePV (fs : FS) (keyFilePath stateFilePath : string)
    (keyGenF : option (option crypto_PrivKey + string)) : FS * result FilePV :=
  if FileExists fs keyFilePath then
    (fs, LoadFilePV fs keyFilePath stateFilePath)
  else
    match GenFilePV keyFilePath stateFilePath keyGenF with
    | Ok pv =>
        let out := FilePV_Save (mkState pv tt fs []) in
        (st_fs (fst out), result_bind (snd out) (fun _ => Ok pv))
    | other => (fs, other)
    end.

(** A file exists when it can be read. *)
Definition exists_when_read : Prop :=
  forall (fs : FS) (path : string) (data : bytes),
    os_ReadFile fs path = inl data -> FileExists fs path = true.

(** The codec reads the private key back from what it writes for the key. *)
Definition key_reads_back (pvKey : FilePVKey) : Prop :=
  forall b : bytes,
    MarshalIndent_Key pvKey = inl b ->
    exists pvKey' : FilePVKey,
      Unmarshal_Key b = inl pvKey' /\ PrivKey pvKey' = PrivKey pvKey.

End Generation.

(** ** Vocabulary of the properties *)

Section Vocabulary.
Context {SS : SignatureScheme} {PT : ProtoTypes} {CE : CanonicalEncoder}
        {OS : FileSystem} {JS : JSONCodec}.

(** The vote-extension block of [signVote] is passed without an error: it is
    skipped, or it produces the two signatures to store. *)
Definition extension_step_ok (chainID : string) (signExtension : bool)
    (pv : FilePV) (vote : Vote) : bool :=
  negb signExtension
  || match extensionSignatures chainID pv vote with
     | Ok _ => true
     | _ => false
     end.

(** The vote is a precommit for a block. *)
Definition nonnil_precommit (vote : Vote) : Prop :=
  Vote_Type vote = PrecommitType /\ ProtoBlockIDIsNil (Vote_BlockID vote) = false.

(** [sig] is what [Sign] of the private key of the validator returns for
    [msg]. *)
Definition signed_with_key (pv : FilePV) (msg sig : bytes) : Prop :=
  exists sk : crypto_PrivKey,
    PrivKey (Key pv) = Some sk /\ PrivKey_Sign sk msg = inl sig.

(** The call of [signVote] with [signExtension] set fails in the replay
    resolver: it returns [ErrConflictingData], or it got to the resolver (the
    request is at the watermark, the sign bytes were computed and the
    vote-extension block returned no error) and panics. *)
Definition fails_in_resolver (chainID : string) (now : time_Time) (st : State Vote)
  : Prop :=
  snd (signVote chainID true now st) = Err ErrConflictingData
  \/ exists (step : Z) (m : string),
       voteToStep (st_msg st) = Ok step
       /\ CheckHRS (LastSignState (st_pv st)) (Vote_Height (st_msg st))
            (Vote_Round (st_msg st)) step = Ok true
       /\ VoteSignBytes_panic chainID (st_msg st) = None
       /\ extension_step_ok chainID true (st_pv st) (st_msg st) = true
       /\ snd (signVote chainID true now st) = Panic m.

(** The validator and the file system are as they were. *)
Definition same_store {Msg : Type} (st st' : State Msg) : Prop :=
  st_pv st' = st_pv st /\ st_fs st' = st_fs st.

(** The watermark [saveSigned] builds. *)
Definition signed_lss (pv : FilePV) (q : HRS) (signBytes sig : bytes)
  : FilePVLastSignState :=
  let '(h, r, s) := q in
  mkLSS h r s sig signBytes (lss_filePath (LastSignState pv)).

(** What one signing call can do to the validator and add to the events:
    nothing, the reuse of the stored signature, a watermark set in memory
    whose write failed, or a watermark set, written and then handed out. *)
Inductive call_effect (pv : FilePV) : FilePV -> list Event -> Prop :=
| effect_none : call_effect pv pv []
| effect_reuse : call_effect pv pv [EvSetSignature (Signature (LastSignState pv))]
| effect_unsaved (q : HRS) (signBytes sig : bytes) :
    hrs_lt (hrs_of (LastSignState pv)) q ->
    call_effect pv (mkFilePV (Key pv) (signed_lss pv q signBytes sig))
      [EvSaveSigned q signBytes sig]
| effect_saved (q : HRS) (signBytes sig : bytes) :
    hrs_lt (hrs_of (LastSignState pv)) q ->
    call_effect pv (mkFilePV (Key pv) (signed_lss pv q signBytes sig))
      [EvSaveSigned q signBytes sig; EvPersist (signed_lss pv q signBytes sig);
       EvSetSignature sig].

Definition hrs_le (a b : HRS) : Prop := a = b \/ hrs_lt a b.

(** The triples of [l] increase, lie above [start] and do not exceed [cur]. *)
Definition ordered_between (start cur : HRS) (l : list HRS) : Prop :=
  StronglySorted hrs_lt l /\ Forall (hrs_lt start) l
  /\ Forall (fun q => hrs_le q cur) l.

(** The invariant of a running validator: the triples it has set and the
    triples it has written increase, and none exceeds the watermark in
    memory. *)
Definition watermark_inv (start : HRS) (n : Node) : Prop :=
  hrs_le start (hrs_of (LastSignState (node_pv n)))
  /\ ordered_between start (hrs_of (LastSignState (node_pv n))) (saved_hrs (node_trace n))
  /\ ordered_between start (hrs_of (LastSignState (node_pv n)))
       (persisted_hrs (node_trace n)).

(** What the replay resolver does with a request at the watermark, for a
    message whose signature and timestamp are read by [sig_of] and [ts_of] and
    whose canonical form is decoded by [unmarshal]: the validator and the file
    system stay as they were, and
    - when the new sign bytes [new] equal the stored ones, the call succeeds,
      the stored signature is in the message, whose timestamp is untouched;
    - when they differ and both decode, to [last] and [cur]: if the two are
      equal once their timestamps are both set to [now], the call succeeds
      with the timestamp of [last] and the stored signature in the message;
      if not, the call returns [ErrConflictingData], the signature of the
      message is untouched and no signature is handed out;
    - when they differ and one of them does not decode, the call panics, the
      signature of the message is untouched and no signature is handed out. *)
Definition replay_outcome {Msg C : Type} (sig_of : Msg -> bytes)
    (ts_of : Msg -> time_Time) (unmarshal : bytes -> C + string)
    (c_ts : C -> time_Time) (c_set : time_Time -> C -> C) (c_eq : C -> C -> bool)
    (now : time_Time) (new : bytes) (st : State Msg)
    (out : State Msg * result unit) : Prop :=
  let lss := LastSignState (st_pv st) in
  same_store st (fst out)
  /\ (bytes_Equal new (SignBytes lss) = true ->
      snd out = Ok tt
      /\ sig_of (st_msg (fst out)) = Signature lss
      /\ ts_of (st_msg (fst out)) = ts_of (st_msg st)
      /\ st_trace (fst out) = st_trace st ++ [EvSetSignature (Signature lss)])
  /\ (bytes_Equal new (SignBytes lss) = false ->
      forall last cur : C,
        unmarshal (SignBytes lss) = inl last ->
        unmarshal new = inl cur ->
        (c_eq (c_set now cur) (c_set now last) = true ->
         snd out = Ok tt
         /\ ts_of (st_msg (fst out)) = c_ts last
         /\ sig_of (st_msg (fst out)) = Signature lss
         /\ st_trace (fst out) = st_trace st ++ [EvSetSignature (Signature lss)])
        /\ (c_eq (c_set now cur) (c_set now last) = false ->
            snd out = Err ErrConflictingData
            /\ sig_of (st_msg (fst out)) = sig_of (st_msg st)
            /\ st_trace (fst out) = st_trace st))
  /\ (bytes_Equal new (SignBytes lss) = false ->
      (forall last : C, unmarshal (SignBytes lss) <> inl last)
      \/ (forall cur : C, unmarshal new <> inl cur) ->
      (exists m : string, snd out = Panic m)
      /\ sig_of (st_msg (fst out)) = sig_of (st_msg st)
      /\ st_trace (fst out) = st_trace st).

(** What a call that signs afresh does, for a message whose signature is read
    by [sig_of], with [q], [signBytes] and [sig] the arguments of [saveSigned]:
    - when the state file path is set, the watermark marshals and the atomic
      write succeeds, the call succeeds; [saveSigned] was entered, then the
      watermark was written, then the signature was put in the message, in
      this order; the file system is the one the write produced;
    - when the path is not set, or the watermark does not marshal, or the
      write fails, the call panics after [saveSigned] was entered: nothing
      was written, and the signature of the message is as it was. *)
Definition fresh_outcome {Msg : Type} (sig_of : Msg -> bytes) (q : HRS)
    (signBytes sig : bytes) (st : State Msg) (out : State Msg * result unit) : Prop :=
  let lss' := signed_lss (st_pv st) q signBytes sig in
  let path := lss_filePath lss' in
  (forall (jsonBytes : bytes) (fs' : FS),
      path <> ""%string ->
      MarshalIndent_LastSignState lss' = inl jsonBytes ->
      WriteFileAtomic (st_fs st) path jsonBytes = inl fs' ->
      snd out = Ok tt
      /\ st_trace (fst out)
         = st_trace st
           ++ [EvSaveSigned q signBytes sig; EvPersist lss'; EvSetSignature sig]
      /\ st_fs (fst out) = fs'
      /\ LastSignState (st_pv (fst out)) = lss'
      /\ sig_of (st_msg (fst out)) = sig)
  /\ (path = ""%string
      \/ (exists e : string, MarshalIndent_LastSignState lss' = inr e)
      \/ (exists (jsonBytes : bytes) (e : string),
             MarshalIndent_LastSignState lss' = inl jsonBytes
             /\ WriteFileAtomic (st_fs st) path jsonBytes = inr e) ->
      (exists m : string, snd out = Panic m)
      /\ st_trace (fst out) = st_trace st ++ [EvSaveSigned q signBytes sig]
      /\ st_fs (fst out) = st_fs st
      /\ sig_of (st_msg (fst out)) = sig_of (st_msg st)).

End Vocabulary.

(** ** A concrete set of collaborators

    A small signature scheme, canonical encoder, file system and codec at
    which the procedures can be run. The encoder writes integers on eight
    bytes and strings behind their length; the canonical bytes of a vote
    cover its type, height, round, block id, timestamp and the chain id, and
    leave out the extensions and every signature, as [types.VoteSignBytes]
    does. *)
Module Toy.

Definition byte_of_Z (z : Z) : byte :=
  match Byte.of_N (Z.to_N (z mod 256)) with
  | Some b => b
  | None => x00
  end.

Definition Z_of_byte (b : byte) : Z := Z.of_N (Byte.to_N b).

(** Big-endian, [n] bytes, two's complement. *)
Fixpoint encode_be (n : nat) (z : Z) : list byte :=
  match n with
  | O => []
  | S k => encode_be k (z / 256) ++ [byte_of_Z z]
  end.

Fixpoint decode_be (l : list byte) (acc : Z) : Z :=
  match l with
  | [] => acc
  | b :: rest => decode_be rest (acc * 256 + Z_of_byte b)
  end.

Definition encode_int (z : Z) : list byte := encode_be 8 z.

Definition decode_int (l : list byte) : option (Z * list byte) :=
  if (List.length l <? 8)%nat then None
  else
    let u := decode_be (firstn 8 l) 0 in
    Some (if u <? 2 ^ 63 then u else u - 2 ^ 64, skipn 8 l).

Definition encode_field (l : list byte) : list byte :=
  encode_int (Z.of_nat (List.length l)) ++ l.

Definition decode_field (l : list byte) : option (list byte * list byte) :=
  match decode_int l with
  | None => None
  | Some (n, rest) =>
      if (n <? 0) || (Z.of_nat (List.length rest) <? n) then None
      else Some (firstn (Z.to_nat n) rest, skipn (Z.to_nat n) rest)
  end.

Definition encode_type (t : SignedMsgType) : byte :=
  match t with
  | UnknownType => x00
  | PrevoteType => x01
  | PrecommitType => x02
  | ProposalType => x20
  end.

Definition decode_type (b : byte) : option SignedMsgType :=
  match b with
  | x00 => Some UnknownType
  | x01 => Some PrevoteType
  | x02 => Some PrecommitType
  | x20 => Some ProposalType
  | _ => None
  end.

(** Keys are byte strings; a signature is the key followed by the message,
    and signing with the empty key fails. *)
Definition scheme : SignatureScheme := {|
  crypto_PrivKey := list byte;
  crypto_PubKey := list byte;
  PrivKey_Sign := fun sk msg =>
    match sk with
    | [] => inr "empty key"
    | _ => inl (Some (sk ++ contents msg))
    end;
  PrivKey_PubKey := fun sk => rev sk;
  PubKey_Address := fun pk => Some (firstn 2 pk)
|}.

(** A block id is its hash, empty for nil; a time is a number of seconds. *)
Definition proto : ProtoTypes := {|
  BlockID := list byte;
  time_Time := Z;
  ProtoBlockIDIsNil := fun b => match b with [] => true | _ => false end
|}.

(** The canonical form of a vote and of a proposal. *)
Record Canonical : Type := mkCanonical {
  c_Type : SignedMsgType;
  c_Height : Z;
  c_Round : Z;
  c_PolRound : Z;
  c_BlockID : list byte;
  c_Timestamp : Z;
  c_ChainID : list byte
}.

Definition encode_canonical (c : Canonical) : bytes :=
  Some (encode_type (c_Type c) :: encode_int (c_Height c) ++ encode_int (c_Round c)
          ++ encode_int (c_PolRound c) ++ encode_field (c_BlockID c)
          ++ encode_int (c_Timestamp c) ++ encode_field (c_ChainID c)).

Definition decode_canonical (b : bytes) : Canonical + string :=
  match contents b with
  | [] => inr "unexpected EOF"
  | t :: l0 =>
      match decode_type t, decode_int l0 with
      | Some ty, Some (h, l1) =>
          match decode_int l1 with
          | Some (r, l2) =>
              match decode_int l2 with
              | Some (pol, l3) =>
                  match decode_field l3 with
                  | Some (bid, l4) =>
                      match decode_int l4 with
                      | Some (ts, l5) =>
                          match decode_field l5 with
                          | Some (cid, []) => inl (mkCanonical ty h r pol bid ts cid)
                          | _ => inr "malformed chain id"
                          end
                      | None => inr "malformed timestamp"
                      end
                  | None => inr "malformed block id"
                  end
              | None => inr "malformed pol round"
              end
          | None => inr "malformed round"
          end
      | _, _ => inr "malformed header"
      end
  end.

Definition canonical_set_Timestamp (t : Z) (c : Canonical) : Canonical :=
  mkCanonical (c_Type c) (c_Height c) (c_Round c) (c_PolRound c) (c_BlockID c) t
    (c_ChainID c).

Definition canonical_Equal (a b : Canonical) : bool :=
  SignedMsgType_eqb (c_Type a) (c_Type b) && (c_Height a =? c_Height b)
  && (c_Round a =? c_Round b) && (c_PolRound a =? c_PolRound b)
  && bytes_Equal (Some (c_BlockID a)) (Some (c_BlockID b))
  && (c_Timestamp a =? c_Timestamp b)
  && bytes_Equal (Some (c_ChainID a)) (Some (c_ChainID b)).

Definition canonical_of_vote (chainID : string) (v : @Vote proto) : Canonical :=
  mkCanonical (Vote_Type v) (Vote_Height v) (Vote_Round v) 0 (Vote_BlockID v)
    (Vote_Timestamp v) (list_byte_of_string chainID).

Definition canonical_of_proposal (chainID : string) (p : @Proposal proto) : Canonical :=
  mkCanonical ProposalType (Proposal_Height p) (Proposal_Round p) (Proposal_PolRound p)
    (Proposal_BlockID p) (Proposal_Timestamp p) (list_byte_of_string chainID).

(** A hash of more than two bytes does not pass the validation of the block
    id. *)
Definition wrong_hash (b : list byte) : option string :=
  if (2 <? List.length b)%nat then Some "wrong Hash" else None.

(** The extension sign bytes: the payload with the chain id, height and round
    for the replay-protected variant, the payload alone for the other one. *)
Definition encoder : @CanonicalEncoder proto := {|
  VoteSignBytes := fun chainID v => encode_canonical (canonical_of_vote chainID v);
  VoteSignBytes_panic := fun _ v => wrong_hash (Vote_BlockID v);
  ProposalSignBytes_panic := fun _ p => wrong_hash (Proposal_BlockID p);
  VoteExtensionSignBytes := fun chainID v =>
    (Some (encode_field (contents (Vote_Extension v))
             ++ encode_int (Vote_Height v) ++ encode_int (Vote_Round v)
             ++ encode_field (list_byte_of_string chainID)),
     Some (encode_field (contents (Vote_NonRpExtension v))));
  ProposalSignBytes := fun chainID p =>
    encode_canonical (canonical_of_proposal chainID p);
  CanonicalVote := Canonical;
  CanonicalVote_Timestamp := c_Timestamp;
  CanonicalVote_set_Timestamp := canonical_set_Timestamp;
  UnmarshalDelimited_CanonicalVote := decode_canonical;
  proto_Equal_CanonicalVote := canonical_Equal;
  CanonicalProposal := Canonical;
  CanonicalProposal_Timestamp := c_Timestamp;
  CanonicalProposal_set_Timestamp := canonical_set_Timestamp;
  UnmarshalDelimited_CanonicalProposal := decode_canonical;
  proto_Equal_CanonicalProposal := canonical_Equal
|}.

(** The file system is the list of its files, the latest write first; no file
    can be written under [/ro/]. *)
Fixpoint lookup_file (fs : list (string * bytes)) (path : string) : bytes + string :=
  match fs with
  | [] => inr ("open " ++ path ++ ": no such file or directory")%string
  | (p, data) :: rest => if String.eqb p path then inl data else lookup_file rest path
  end.

Definition filesystem : FileSystem := {|
  FS := list (string * bytes);
  os_ReadFile := lookup_file;
  WriteFileAtomic := fun fs path data =>
    if String.prefix "/ro/" path then inr "read-only file system"
    else inl ((path, data) :: fs)
|}.

(** A field left out of the file ([omitempty]) is read back as nil. *)
Definition bytes_of_field (l : list byte) : bytes :=
  match l with
  | [] => None
  | _ => Some l
  end.

Definition marshal_state (lss : FilePVLastSignState) : bytes + string :=
  inl (Some (encode_int (Height lss) ++ encode_int (Round lss) ++ encode_int (Step lss)
               ++ encode_field (contents (Signature lss))
               ++ encode_field (contents (SignBytes lss)))).

Definition unmarshal_state (b : bytes) : FilePVLastSignState + string :=
  match decode_int (contents b) with
  | Some (h, l1) =>
      match decode_int l1 with
      | Some (r, l2) =>
          match decode_int l2 with
          | Some (s, l3) =>
              match decode_field l3 with
              | Some (sig, l4) =>
                  match decode_field l4 with
                  | Some (sb, []) =>
                      inl (mkLSS h r s (bytes_of_field sig) (bytes_of_field sb) "")
                  | _ => inr "malformed signbytes"
                  end
              | None => inr "malformed signature"
              end
          | None => inr "malformed step"
          end
      | None => inr "malformed round"
      end
  | None => inr "malformed height"
  end.

Definition key_of_field (l : list byte) : option (list byte) :=
  match l with
  | [] => None
  | _ => Some l
  end.

Definition marshal_key (k : @FilePVKey scheme) : bytes + string :=
  inl (Some (encode_field (contents (Address k))
               ++ encode_field (match PubKey k with Some pk => pk | None => [] end)
               ++ encode_field (match PrivKey k with Some sk => sk | None => [] end))).

Definition unmarshal_key (b : bytes) : @FilePVKey scheme + string :=
  match decode_field (contents b) with
  | Some (addr, l1) =>
      match decode_field l1 with
      | Some (pk, l2) =>
          match decode_field l2 with
          | Some (sk, []) =>
              inl (@mkKey scheme (bytes_of_field addr) (key_of_field pk)
                     (key_of_field sk) "")
          | _ => inr "malformed priv_key"
          end
      | None => inr "malformed pub_key"
      end
  | None => inr "malformed address"
  end.

Definition codec : @JSONCodec scheme := {|
  MarshalIndent_LastSignState := marshal_state;
  Unmarshal_LastSignState := unmarshal_state;
  MarshalIndent_Key := marshal_key;
  Unmarshal_Key := unmarshal_key
|}.

(** Sample data: a key, two votes at height 10 and round 0, a proposal, and
    the validator before anything is signed, after it signed the prevote, and
    after it signed the prevote and then the precommit. *)
Section Samples.
Local Existing Instance scheme.
Local Existing Instance proto.
Local Existing Instance encoder.
Local Existing Instance filesystem.
Local Existing Instance codec.

Definition key : list byte := [x0a; x0b; x0c].

Definition pv0 : FilePV :=
  NewFilePV (key : crypto_PrivKey) "/pv/key.json" "/pv/state.json".

Definition vote_at (type : SignedMsgType) (height : Z) (blockID : list byte)
    (timestamp : Z) (extension : bytes) : Vote :=
  mkVote type height 0 blockID timestamp None 0 None extension None None None.

Definition prevote : Vote := vote_at PrevoteType 10 [x01] 100 None.

Definition precommit : Vote := vote_at PrecommitType 10 [x01] 100 (Some [x07]).

Definition proposal_at (height timestamp : Z) : Proposal :=
  mkProposal ProposalType height 0 (-1) [x01] timestamp None.

Definition node0 : Node := mkNode pv0 ([] : FS) [].

Definition node_prevoted : Node :=
  serve_all [ReqVote "chain" prevote false 0] node0.

Definition node_precommitted : Node :=
  serve_all [ReqVote "chain" prevote false 0; ReqVote "chain" precommit true 0] node0.

Definition state_of {Msg : Type} (n : Node) (msg : Msg) : State Msg :=
  mkState (node_pv n) msg (node_fs n) (node_trace n).

(** A watermark at the triple of the prevote whose sign bytes are not the
    encoding of a canonical vote. *)
Definition pv_garbled : FilePV :=
  mkFilePV (Key pv0) (mkLSS 10 0 2 (Some [x05]) (Some [xff]) "/pv/state.json").

(** A validator whose state file lies where no file can be written. *)
Definition pv_readonly : FilePV :=
  NewFilePV (key : crypto_PrivKey) "/ro/key.json" "/ro/state.json".

(** Watermarks at (10, 0, 3) and at (10, 1, 3) with sign bytes and signature,
    and at (10, 0, 3) with neither and with sign bytes only. *)
Definition lss_signed : FilePVLastSignState :=
  mkLSS 10 0 3 (Some [x05]) (Some [x06]) "".

Definition lss_round1 : FilePVLastSignState :=
  mkLSS 10 1 3 (Some [x05]) (Some [x06]) "".

Definition lss_unsigned : FilePVLastSignState := mkLSS 10 0 3 None None "".

Definition lss_corrupt : FilePVLastSignState := mkLSS 10 0 3 None (Some [x06]) "".

(** A key file whose address and public key are not those of its private
    key, alone in the file system. *)
Definition key_json : bytes :=
  Some (encode_field [xee] ++ encode_field [xdd; xcc] ++ encode_field key).

(** What the codec reads from it. *)
Definition key_parsed : FilePVKey :=
  @mkKey scheme (Some [xee]) (Some [xdd; xcc]) (Some key) "".

Definition fs_key_only : FS := [("/pv/key.json"%string, key_json)].

(** Requests put to the validator that signed the prevote and the precommit:
    the precommit again with a later timestamp and another extension, a
    precommit for another block, and a precommit and a prevote one height
    below. *)
Definition st_replay_later : State Vote :=
  state_of node_precommitted (vote_at PrecommitType 10 [x01] 105 (Some [x08])).

Definition st_conflict : State Vote :=
  state_of node_precommitted (vote_at PrecommitType 10 [x02] 105 (Some [x08])).

Definition st_regress_precommit : State Vote :=
  state_of node_precommitted (vote_at PrecommitType 9 [x01] 100 (Some [x07])).

Definition st_regress_prevote : State Vote :=
  state_of node_precommitted (vote_at PrevoteType 9 [x01] 100 (Some [x07])).

(** Requests put to the validator that signed the prevote: the prevote again
    with an extension attached, and the precommit. *)
Definition st_prevote_extended : State Vote :=
  state_of node_prevoted (vote_at PrevoteType 10 [x01] 100 (Some [x07])).

Definition st_fresh_precommit : State Vote := state_of node_prevoted precommit.

(** The prevote put to the validator with the garbled watermark, and the
    precommit put to the validator that cannot write its state file. *)
Definition st_garbled : State Vote := mkState pv_garbled prevote ([] : FS) [].

Definition st_readonly : State Vote := mkState pv_readonly precommit ([] : FS) [].

(** A precommit with an extension for a block id that does not pass the
    validation, one height above the watermark of the validator that signed
    the prevote and the precommit. *)
Definition st_malformed : State Vote :=
  state_of node_precommitted
    (vote_at PrecommitType 11 [x01; x02; x03] 100 (Some [x07])).

End Samples.

End Toy.

(** ** A scripted signer *)

(** A wrapped client for the retrying signer client: the world is the list of
    answers the signer still has to give, with the time slept so far; a call
    takes the first answer, and a call on the empty list fails with an error
    of the connection. *)
Module Scripted.

Definition World : Type := (list (unit + client_error) * Z)%type.

Definition time_Sleep (d : Z) (w : World) : World := (fst w, snd w + d).

Definition next (w : World) : World * (unit + client_error) :=
  match fst w with
  | [] => (w, inr (OtherError "connection closed"))
  | r :: rest => ((rest, snd w), r)
  end.

(** The client with the given number of retries and a timeout of 100. *)
Definition client (n : Z) : @RetrySignerClient Toy.scheme World :=
  @mkRetrySignerClient Toy.scheme World
    (fun w => (w, inr (OtherError "no public key")))
    (fun _ _ => next)
    (fun _ => next)
    (fun _ w => (w, inr (OtherError "no signature")))
    n 100.

(** Two failures of the connection and then a value; a failure of the
    connection and then a refusal of the signer; and a dead connection. *)
Definition w_flaky : World :=
  ([inr (OtherError "i/o timeout"); inr (OtherError "connection reset"); inl tt], 0).

Definition w_refused : World :=
  ([inr (OtherError "i/o timeout"); inr (RemoteSignerError "double sign"); inl tt], 0).

Definition w_dead : World := ([], 0).

End Scripted.

(** ** The sample files *)

(** In the sample file system a file exists when it was written; and the
    files a validator generated from the sample key leaves in the empty file
    system. *)
Module Disk.

Definition FileExists (fs : @FS Toy.filesystem) (path : string) : bool :=
  match Toy.lookup_file fs path with
  | inl _ => true
  | inr _ => false
  end.

Definition fs_generated : @FS Toy.filesystem :=
  st_fs (fst (@FilePV_Save Toy.scheme Toy.filesystem Toy.codec unit
                (Toy.state_of Toy.node0 tt))).

End Disk.

(** * Properties *)

Unset Implicit Arguments.

(** ** Byte strings and the order on triples *)

Lemma bytes_Equal_true (a b : bytes) :
  bytes_Equal a b = true <-> contents a = contents b.
Proof.
  unfold bytes_Equal.
  destruct (list_eq_dec byte_eq_dec (contents a) (contents b)); split;
    intros; congruence.
Qed.

Lemma hrs_lt_trans (a b c : HRS) : hrs_lt a b -> hrs_lt b c -> hrs_lt a c.
Proof.
  destruct a as [[h1 r1] s1], b as [[h2 r2] s2], c as [[h3 r3] s3].
  unfold hrs_lt. lia.
Qed.

Lemma hrs_lt_irrefl (a : HRS) : ~ hrs_lt a a.
Proof. destruct a as [[h r] s]. unfold hrs_lt. lia. Qed.

(** ** The checker *)

(** Case analysis on the comparisons [CheckHRS] performs, each turned into
    the arithmetic fact it decides. *)
Ltac check_hrs_cases :=
  unfold CheckHRS, hrs_of, hrs_lt;
  rewrite ?Z.gtb_ltb;
  repeat match goal with
         | |- context [Z.ltb ?a ?b] => destruct (Z.ltb_spec a b); cbn [negb]
         | |- context [Z.eqb ?a ?b] => destruct (Z.eqb_spec a b); cbn [negb]
         | |- context [is_nil ?b] => destruct b; cbn [is_nil]
         end.

(** [CheckHRS] lets a request through as a fresh one exactly when its triple
    is above the watermark. *)
Lemma CheckHRS_fresh (lss : FilePVLastSignState) (h r s : Z) :
  CheckHRS lss h r s = Ok false <-> hrs_lt (hrs_of lss) (h, r, s).
Proof.
  check_hrs_cases; split; intros; try discriminate; try reflexivity; lia.
Qed.

(** [CheckHRS] answers "reuse" only at the watermark itself, with both the
    sign bytes and the signature present. *)
Lemma CheckHRS_reuse (lss : FilePVLastSignState) (h r s : Z) :
  CheckHRS lss h r s = Ok true <->
  hrs_of lss = (h, r, s) /\ SignBytes lss <> None /\ Signature lss <> None.
Proof.
  check_hrs_cases; split; intros Hyp; try discriminate; try reflexivity;
    try (destruct Hyp as (E & A & B); inversion E; try congruence; lia).
  all: repeat split; try discriminate; f_equal; [f_equal |]; lia.
Qed.

(** C3. [CheckHRS] against the watermark: a regression of the height, of the
    round at the same height, or of the step at the same height and round is
    an error; a triple above the watermark is let through without reuse; at
    the watermark itself the call is an error when there are no sign bytes,
    a panic when there are sign bytes and no signature, and answers "reuse"
    when both are there. *)
Theorem CheckHRS_table (lss : FilePVLastSignState) (height round step : Z) :
  (Height lss > height ->
   CheckHRS lss height round step = Err (ErrHeightRegression height (Height lss)))
  /\ (Height lss = height -> Round lss > round ->
      CheckHRS lss height round step = Err (ErrRoundRegression height round (Round lss)))
  /\ (Height lss = height -> Round lss = round -> Step lss > step ->
      CheckHRS lss height round step
      = Err (ErrStepRegression height round step (Step lss)))
  /\ (hrs_lt (hrs_of lss) (height, round, step) ->
      CheckHRS lss height round step = Ok false)
  /\ (hrs_of lss = (height, round, step) -> SignBytes lss = None ->
      CheckHRS lss height round step = Err ErrNoSignBytes)
  /\ (hrs_of lss = (height, round, step) -> SignBytes lss <> None ->
      Signature lss = None ->
      CheckHRS lss height round step
      = Panic "pv: Signature is nil but SignBytes is not!")
  /\ (hrs_of lss = (height, round, step) -> SignBytes lss <> None ->
      Signature lss <> None ->
      CheckHRS lss height round step = Ok true).
Proof.
  repeat split.
  - intros. check_hrs_cases; try reflexivity; lia.
  - intros. check_hrs_cases; try reflexivity; lia.
  - intros. check_hrs_cases; try reflexivity; lia.
  - apply CheckHRS_fresh.
  - intros E Hb. unfold hrs_of in E. inversion E; subst.
    unfold CheckHRS. rewrite Hb, !Z.gtb_ltb, !Z.ltb_irrefl, !Z.eqb_refl.
    reflexivity.
  - intros E Hb Hs. unfold hrs_of in E. inversion E; subst.
    unfold CheckHRS. rewrite Hs, !Z.gtb_ltb, !Z.ltb_irrefl, !Z.eqb_refl.
    destruct (SignBytes lss); [reflexivity | congruence].
  - intros E Hb Hs. apply CheckHRS_reuse. auto.
Qed.

(** ** The signing procedures *)

Section Properties.
Context {SS : SignatureScheme} {PT : ProtoTypes} {CE : CanonicalEncoder}
        {OS : FileSystem} {JS : JSONCodec}.

(** Unfolds the procedures down to the state transformer they denote. *)
Ltac unfold_procs :=
  unfold SignVote, SignProposal, wrap_error, signVote, signProposal, saveSigned,
    types_VoteSignBytes, types_ProposalSignBytes,
    LastSignState_Save, bind, lift, ret, get_msg, get_pv, modify_msg, emit in *;
  cbn [fst snd st_pv st_msg st_fs st_trace Key LastSignState] in *.

(** Splits on the next value the procedure branches on. *)
Ltac next_case :=
  match goal with
  | |- context [match ?x with _ => _ end] =>
      lazymatch x with
      | context [match _ with _ => _ end] => fail
      | _ => destruct x eqn:?
      end
  end; cbn [fst snd st_pv st_msg st_fs st_trace Key LastSignState] in *.

(** The encoder panics on the message: the call panics with the same value
    once [CheckHRS] has let it through, and nothing has changed. *)
Lemma signVote_encoder_panic (chainID : string) (signExtension : bool)
    (now : time_Time) (st : State Vote) (step : Z) (sameHRS : bool) (m : string) :
  voteToStep (st_msg st) = Ok step ->
  CheckHRS (LastSignState (st_pv st)) (Vote_Height (st_msg st))
    (Vote_Round (st_msg st)) step = Ok sameHRS ->
  VoteSignBytes_panic chainID (st_msg st) = Some m ->
  signVote chainID signExtension now st = (st, Panic m).
Proof.
  intros Hstep Hchk Henc. unfold_procs. rewrite Hstep, Hchk, Henc. reflexivity.
Qed.

Lemma signProposal_encoder_panic (chainID : string) (now : time_Time)
    (st : State Proposal) (sameHRS : bool) (m : string) :
  CheckHRS (LastSignState (st_pv st)) (Proposal_Height (st_msg st))
    (Proposal_Round (st_msg st)) stepPropose = Ok sameHRS ->
  ProposalSignBytes_panic chainID (st_msg st) = Some m ->
  signProposal chainID now st = (st, Panic m).
Proof.
  intros Hchk Henc. unfold_procs. rewrite Hchk, Henc. reflexivity.
Qed.

Lemma signVote_error_frame (chainID : string) (signExtension : bool) (now : time_Time)
    (st : State Vote) (e : error) :
  snd (signVote chainID signExtension now st) = Err e ->
  same_store st (fst (signVote chainID signExtension now st))
  /\ st_trace (fst (signVote chainID signExtension now st)) = st_trace st.
Proof.
  unfold same_store. unfold_procs.
  repeat next_case; intros; try discriminate; auto.
Qed.

Lemma signProposal_error_frame (chainID : string) (now : time_Time)
    (st : State Proposal) (e : error) :
  snd (signProposal chainID now st) = Err e ->
  same_store st (fst (signProposal chainID now st))
  /\ st_trace (fst (signProposal chainID now st)) = st_trace st.
Proof.
  unfold same_store. unfold_procs.
  repeat next_case; intros; try discriminate; auto.
Qed.

(** C6. A call of [signVote] or [signProposal] that returns an error leaves
    the last-sign state as it was, field for field, writes nothing to the
    file system, and neither sets the watermark nor persists it. *)
Theorem error_leaves_watermark (chainID : string) (now : time_Time) (e : error) :
  (forall (signExtension : bool) (st : State Vote),
      snd (signVote chainID signExtension now st) = Err e ->
      LastSignState (st_pv (fst (signVote chainID signExtension now st)))
      = LastSignState (st_pv st)
      /\ st_fs (fst (signVote chainID signExtension now st)) = st_fs st
      /\ st_trace (fst (signVote chainID signExtension now st)) = st_trace st)
  /\ (forall (st : State Proposal),
      snd (signProposal chainID now st) = Err e ->
      LastSignState (st_pv (fst (signProposal chainID now st)))
      = LastSignState (st_pv st)
      /\ st_fs (fst (signProposal chainID now st)) = st_fs st
      /\ st_trace (fst (signProposal chainID now st)) = st_trace st).
Proof.
  split.
  - intros signExtension st He.
    destruct (signVote_error_frame _ _ _ _ _ He) as [[Hpv Hfs] Htr].
    rewrite Hpv. auto.
  - intros st He.
    destruct (signProposal_error_frame _ _ _ _ He) as [[Hpv Hfs] Htr].
    rewrite Hpv. auto.
Qed.

(** ** Monotonicity of the watermark *)

Lemma signVote_effect (chainID : string) (signExtension : bool) (now : time_Time)
    (st : State Vote) :
  exists d : list Event,
    st_trace (fst (signVote chainID signExtension now st)) = st_trace st ++ d
    /\ call_effect (st_pv st) (st_pv (fst (signVote chainID signExtension now st))) d.
Proof.
  unfold_procs.
  repeat next_case;
    try (exists []; rewrite app_nil_r; split; [reflexivity | constructor]; fail);
    try (eexists; split; [reflexivity | apply effect_reuse]; fail).
  all: rewrite <- ?app_assoc; cbn [app];
    eexists; (split; [reflexivity |]);
    match goal with
    | H : CheckHRS _ _ _ _ = Ok false |- _ => apply CheckHRS_fresh in H
    end.
  all: first [ eapply (@effect_unsaved _ _ (_, _, _)); eassumption
             | eapply (@effect_saved _ _ (_, _, _)); eassumption ].
Qed.

Lemma signProposal_effect (chainID : string) (now : time_Time) (st : State Proposal) :
  exists d : list Event,
    st_trace (fst (signProposal chainID now st)) = st_trace st ++ d
    /\ call_effect (st_pv st) (st_pv (fst (signProposal chainID now st))) d.
Proof.
  unfold_procs.
  repeat next_case;
    try (exists []; rewrite app_nil_r; split; [reflexivity | constructor]; fail);
    try (eexists; split; [reflexivity | apply effect_reuse]; fail).
  all: rewrite <- ?app_assoc; cbn [app];
    eexists; (split; [reflexivity |]);
    match goal with
    | H : CheckHRS _ _ _ _ = Ok false |- _ => apply CheckHRS_fresh in H
    end.
  all: first [ eapply (@effect_unsaved _ _ (_, _, _)); eassumption
             | eapply (@effect_saved _ _ (_, _, _)); eassumption ].
Qed.

Lemma wrap_error_state {Msg A : Type} (w : error -> error) (c : M Msg A)
    (st : State Msg) :
  fst (wrap_error w c st) = fst (c st).
Proof.
  unfold wrap_error. destruct (c st) as [st' [a | e | m | m]]; reflexivity.
Qed.

Lemma serve_effect (req : Request) (n : Node) :
  exists d : list Event,
    node_trace (fst (serve req n)) = node_trace n ++ d
    /\ call_effect (node_pv n) (node_pv (fst (serve req n))) d.
Proof.
  destruct req as [chainID vote signExtension now | chainID proposal now];
    unfold serve, node_of, SignVote, SignProposal;
    cbn [fst snd node_trace node_pv]; rewrite wrap_error_state.
  - apply (signVote_effect chainID signExtension now
             (mkState (node_pv n) vote (node_fs n) (node_trace n))).
  - apply (signProposal_effect chainID now
             (mkState (node_pv n) proposal (node_fs n) (node_trace n))).
Qed.

Lemma hrs_le_lt_trans (a b c : HRS) : hrs_le a b -> hrs_lt b c -> hrs_lt a c.
Proof.
  intros [-> | Hab] Hbc; [assumption | eapply hrs_lt_trans; eassumption].
Qed.

Lemma StronglySorted_snoc {A : Type} (R : A -> A -> Prop) (l : list A) (x : A) :
  StronglySorted R l -> Forall (fun y => R y x) l -> StronglySorted R (l ++ [x]).
Proof.
  induction 1 as [| a l Hs IH Ha]; intros Hx; cbn.
  - repeat constructor.
  - inversion Hx; subst. constructor.
    + apply IH; assumption.
    + apply Forall_app. split; [assumption | repeat constructor; assumption].
Qed.

Lemma ordered_between_raise (start cur q : HRS) (l : list HRS) :
  ordered_between start cur l -> hrs_lt cur q -> ordered_between start q l.
Proof.
  intros (Hs & Ha & Hb) Hq. repeat split; try assumption.
  eapply Forall_impl; [| exact Hb].
  intros a Ha'; cbn beta in *. right. eapply hrs_le_lt_trans; eassumption.
Qed.

Lemma ordered_between_snoc (start cur q : HRS) (l : list HRS) :
  hrs_le start cur -> ordered_between start cur l -> hrs_lt cur q ->
  ordered_between start q (l ++ [q]).
Proof.
  intros Hsc (Hs & Ha & Hb) Hq. repeat split.
  - apply StronglySorted_snoc; [assumption |].
    eapply Forall_impl; [| exact Hb].
    intros a Ha'; cbn beta in *. eapply hrs_le_lt_trans; eassumption.
  - apply Forall_app. split; [assumption |].
    repeat constructor. eapply hrs_le_lt_trans; eassumption.
  - apply Forall_app. split.
    + eapply Forall_impl; [| exact Hb].
      intros a Ha'; cbn beta in *. right. eapply hrs_le_lt_trans; eassumption.
    + repeat constructor.
Qed.

Lemma saved_hrs_app (tr d : list Event) :
  saved_hrs (tr ++ d) = saved_hrs tr ++ saved_hrs d.
Proof.
  induction tr as [| [q sb sig | lss | sig] tr IH]; cbn; rewrite ?IH; reflexivity.
Qed.

Lemma persisted_hrs_app (tr d : list Event) :
  persisted_hrs (tr ++ d) = persisted_hrs tr ++ persisted_hrs d.
Proof.
  induction tr as [| [q sb sig | lss | sig] tr IH]; cbn; rewrite ?IH; reflexivity.
Qed.

Lemma hrs_of_signed_lss (pv : FilePV) (q : HRS) (signBytes sig : bytes) :
  hrs_of (signed_lss pv q signBytes sig) = q.
Proof. destruct q as [[h r] s]. reflexivity. Qed.

Lemma call_effect_inv (start : HRS) (n n' : Node) (d : list Event) :
  node_trace n' = node_trace n ++ d ->
  call_effect (node_pv n) (node_pv n') d ->
  watermark_inv start n -> watermark_inv start n'.
Proof.
  unfold watermark_inv. intros Htr Heff (Hstart & Hsaved & Hpers).
  rewrite Htr, saved_hrs_app, persisted_hrs_app.
  inversion Heff as [Hpv | Hpv | q sb sig Hq Hpv | q sb sig Hq Hpv]; subst d;
    cbn [saved_hrs persisted_hrs]; rewrite ?app_nil_r.
  - auto.
  - auto.
  - cbn [LastSignState]. rewrite hrs_of_signed_lss. split; [| split].
    + right. eapply hrs_le_lt_trans; eassumption.
    + eapply ordered_between_snoc; eassumption.
    + eapply ordered_between_raise; eassumption.
  - cbn [LastSignState]. rewrite hrs_of_signed_lss. split; [| split].
    + right. eapply hrs_le_lt_trans; eassumption.
    + eapply ordered_between_snoc; eassumption.
    + eapply ordered_between_snoc; eassumption.
Qed.

Lemma serve_all_inv (start : HRS) (reqs : list Request) :
  forall n : Node, watermark_inv start n -> watermark_inv start (serve_all reqs n).
Proof.
  induction reqs as [| req rest IH]; intros n Hn; cbn [serve_all]; [assumption |].
  destruct (serve_effect req n) as (d & Htr & Heff).
  pose proof (call_effect_inv start _ _ _ Htr Heff Hn) as Hn'.
  destruct (serve req n) as [n' [u | e | m | m]]; cbn [fst] in *; auto.
Qed.

(** C2. Whatever the watermark a validator starts from and whatever the calls
    of [SignVote] and [SignProposal] it serves, the triples passed to
    [saveSigned] strictly increase in the lexicographic order, and so do the
    triples of the watermarks written to the state file; all of them lie
    strictly above the watermark the validator started from. *)
Theorem persisted_hrs_increasing (pv : FilePV) (fs : FS) (reqs : list Request) :
  let tr := node_trace (serve_all reqs (mkNode pv fs [])) in
  StronglySorted hrs_lt (saved_hrs tr)
  /\ StronglySorted hrs_lt (persisted_hrs tr)
  /\ Forall (hrs_lt (hrs_of (LastSignState pv))) (saved_hrs tr)
  /\ Forall (hrs_lt (hrs_of (LastSignState pv))) (persisted_hrs tr).
Proof.
  cbv zeta.
  assert (Hinit : watermark_inv (hrs_of (LastSignState pv)) (mkNode pv fs [])).
  { unfold watermark_inv, ordered_between. cbn.
    repeat split; try constructor; reflexivity. }
  apply (serve_all_inv _ reqs) in Hinit.
  destruct Hinit as (_ & (Hs1 & Ha1 & _) & (Hs2 & Ha2 & _)). auto.
Qed.

(** ** The replay resolver *)

(** Rewrites with what is known of the comparisons of the resolver. *)
Ltac use_eqs :=
  repeat match goal with
         | H : bytes_Equal _ _ = _ |- _ => rewrite H
         | H : UnmarshalDelimited_CanonicalVote _ = _ |- _ => rewrite H
         | H : proto_Equal_CanonicalVote _ _ = _ |- _ => rewrite H
         | H : UnmarshalDelimited_CanonicalProposal _ = _ |- _ => rewrite H
         | H : proto_Equal_CanonicalProposal _ _ = _ |- _ => rewrite H
         end.

Lemma signVote_replay (chainID : string) (signExtension : bool) (now : time_Time)
    (st : State Vote) (step : Z) :
  voteToStep (st_msg st) = Ok step ->
  CheckHRS (LastSignState (st_pv st)) (Vote_Height (st_msg st))
    (Vote_Round (st_msg st)) step = Ok true ->
  VoteSignBytes_panic chainID (st_msg st) = None ->
  extension_step_ok chainID signExtension (st_pv st) (st_msg st) = true ->
  replay_outcome Vote_Signature Vote_Timestamp UnmarshalDelimited_CanonicalVote
    CanonicalVote_Timestamp CanonicalVote_set_Timestamp proto_Equal_CanonicalVote
    now (VoteSignBytes chainID (st_msg st)) st
    (signVote chainID signExtension now st).
Proof.
  intros Hstep Hchk Henc Hext. unfold replay_outcome. cbv zeta.
  unfold same_store, extension_step_ok in *.
  unfold_procs. unfold checkVotesOnlyDifferByTimestamp.
  rewrite Hstep, Hchk, Henc. cbn [fst snd st_pv st_msg st_fs st_trace].
  assert (Hsigs : signExtension = false
                  \/ exists sigs, signExtension = true
                       /\ extensionSignatures chainID (st_pv st) (st_msg st) = Ok sigs).
  { destruct signExtension; [right | left; reflexivity].
    cbn [negb orb] in Hext.
    destruct (extensionSignatures chainID (st_pv st) (st_msg st)) as [sigs | | |];
      try discriminate.
    exists sigs. auto. }
  destruct Hsigs as [-> | (sigs & -> & ->)];
    cbn [fst snd st_pv st_msg st_fs st_trace];
    (split; [| split; [| split]]).
  all: try (repeat next_case; auto; fail).
  all: intros; use_eqs; cbn [fst snd st_pv st_msg st_fs st_trace].
  all: try (repeat split; reflexivity).
  all: try (split; intros; use_eqs; cbn; repeat split; reflexivity).
  all: repeat next_case; cbn;
    try (split; [eexists; reflexivity | split; reflexivity]).
  all: match goal with
       | H : _ \/ _ |- _ =>
           destruct H as [H | H]; exfalso; eapply H; first [eassumption | reflexivity]
       end.
Qed.

Lemma signProposal_replay (chainID : string) (now : time_Time) (st : State Proposal) :
  CheckHRS (LastSignState (st_pv st)) (Proposal_Height (st_msg st))
    (Proposal_Round (st_msg st)) stepPropose = Ok true ->
  ProposalSignBytes_panic chainID (st_msg st) = None ->
  replay_outcome Proposal_Signature Proposal_Timestamp
    UnmarshalDelimited_CanonicalProposal CanonicalProposal_Timestamp
    CanonicalProposal_set_Timestamp proto_Equal_CanonicalProposal
    now (ProposalSignBytes chainID (st_msg st)) st
    (signProposal chainID now st).
Proof.
  intros Hchk Henc. unfold replay_outcome. cbv zeta.
  unfold same_store.
  unfold_procs. unfold checkProposalsOnlyDifferByTimestamp.
  rewrite Hchk, Henc. cbn [fst snd st_pv st_msg st_fs st_trace].
  split; [| split; [| split]].
  all: try (repeat next_case; auto; fail).
  all: intros; use_eqs; cbn [fst snd st_pv st_msg st_fs st_trace].
  all: try (repeat split; reflexivity).
  all: try (split; intros; use_eqs; cbn; repeat split; reflexivity).
  all: repeat next_case; cbn;
    try (split; [eexists; reflexivity | split; reflexivity]).
  all: match goal with
       | H : _ \/ _ |- _ =>
           destruct H as [H | H]; exfalso; eapply H; first [eassumption | reflexivity]
       end.
Qed.

(** C1, as amended. A call of [signProposal], or a call of [signVote] whose
    vote-extension block returns no error, at the stored watermark with
    [CheckHRS] answering "reuse", the encoder returning the sign bytes of the
    message: if the new sign bytes equal the stored ones the stored
    signature is put in the message and the call succeeds; else,
    both byte strings decoding, if the canonical messages are equal once both
    timestamps are set to the same value, the timestamp of the message becomes
    the stored one, the stored signature is put in the message and the call
    succeeds, and if they are not the call fails with [ErrConflictingData]
    and no signature is produced; if one of the byte strings does not decode
    the call panics. In no case is the watermark set or written. When the
    encoder panics instead of returning the sign bytes, the call panics with
    the same value before the resolver is reached, and nothing has changed. *)
Theorem replay_resolver (chainID : string) (now : time_Time) :
  (forall (signExtension : bool) (st : State Vote) (step : Z),
      voteToStep (st_msg st) = Ok step ->
      CheckHRS (LastSignState (st_pv st)) (Vote_Height (st_msg st))
        (Vote_Round (st_msg st)) step = Ok true ->
      VoteSignBytes_panic chainID (st_msg st) = None ->
      extension_step_ok chainID signExtension (st_pv st) (st_msg st) = true ->
      replay_outcome Vote_Signature Vote_Timestamp UnmarshalDelimited_CanonicalVote
        CanonicalVote_Timestamp CanonicalVote_set_Timestamp proto_Equal_CanonicalVote
        now (VoteSignBytes chainID (st_msg st)) st
        (signVote chainID signExtension now st))
  /\ (forall st : State Proposal,
      CheckHRS (LastSignState (st_pv st)) (Proposal_Height (st_msg st))
        (Proposal_Round (st_msg st)) stepPropose = Ok true ->
      ProposalSignBytes_panic chainID (st_msg st) = None ->
      replay_outcome Proposal_Signature Proposal_Timestamp
        UnmarshalDelimited_CanonicalProposal CanonicalProposal_Timestamp
        CanonicalProposal_set_Timestamp proto_Equal_CanonicalProposal
        now (ProposalSignBytes chainID (st_msg st)) st
        (signProposal chainID now st))
  /\ (forall (signExtension : bool) (st : State Vote) (step : Z) (m : string),
      voteToStep (st_msg st) = Ok step ->
      CheckHRS (LastSignState (st_pv st)) (Vote_Height (st_msg st))
        (Vote_Round (st_msg st)) step = Ok true ->
      VoteSignBytes_panic chainID (st_msg st) = Some m ->
      signVote chainID signExtension now st = (st, Panic m))
  /\ (forall (st : State Proposal) (m : string),
      CheckHRS (LastSignState (st_pv st)) (Proposal_Height (st_msg st))
        (Proposal_Round (st_msg st)) stepPropose = Ok true ->
      ProposalSignBytes_panic chainID (st_msg st) = Some m ->
      signProposal chainID now st = (st, Panic m)).
Proof.
  split; [| split; [| split]].
  - intros signExtension st step. apply signVote_replay.
  - intros st. apply signProposal_replay.
  - intros signExtension st step m. apply signVote_encoder_panic.
  - intros st m. apply signProposal_encoder_panic.
Qed.

(** ** Vote extensions *)

Lemma nonnil_precommit_test (vote : Vote) :
  SignedMsgType_eqb (Vote_Type vote) PrecommitType
  && negb (ProtoBlockIDIsNil (Vote_BlockID vote)) = true
  <-> nonnil_precommit vote.
Proof.
  unfold nonnil_precommit.
  destruct (Vote_Type vote), (ProtoBlockIDIsNil (Vote_BlockID vote)); cbn;
    split; intros; try discriminate; try tauto; intuition congruence.
Qed.

Lemma extensionSignatures_precommit (chainID : string) (pv : FilePV) (vote : Vote) :
  nonnil_precommit vote ->
  extensionSignatures chainID pv vote
  = result_bind (Key_Sign (Key pv) (fst (VoteExtensionSignBytes chainID vote)))
      (fun extSig =>
         result_bind (Key_Sign (Key pv) (snd (VoteExtensionSignBytes chainID vote)))
           (fun nonRpExtSig => Ok (extSig, nonRpExtSig))).
Proof.
  intros Hv. apply nonnil_precommit_test in Hv.
  unfold extensionSignatures. rewrite Hv.
  destruct (VoteExtensionSignBytes chainID vote); reflexivity.
Qed.

Lemma extensionSignatures_other (chainID : string) (pv : FilePV) (vote : Vote) :
  ~ nonnil_precommit vote ->
  extensionSignatures chainID pv vote
  = if (len (Vote_Extension vote) >? 0) || (len (Vote_NonRpExtension vote) >? 0)
    then Err ErrUnexpectedVoteExtension
    else Ok (None, None).
Proof.
  intros Hv. unfold extensionSignatures.
  destruct (SignedMsgType_eqb (Vote_Type vote) PrecommitType
            && negb (ProtoBlockIDIsNil (Vote_BlockID vote))) eqn:Ht; [| reflexivity].
  apply nonnil_precommit_test in Ht. contradiction.
Qed.

(** Once the vote-extension block has produced [sigs], they are what the vote
    carries when the call ends, however it ends; the signature of the vote
    is set by what follows only. *)
Lemma signVote_extension_fields (chainID : string) (now : time_Time)
    (st : State Vote) (step : Z) (sameHRS : bool) (sigs : bytes * bytes) :
  voteToStep (st_msg st) = Ok step ->
  CheckHRS (LastSignState (st_pv st)) (Vote_Height (st_msg st))
    (Vote_Round (st_msg st)) step = Ok sameHRS ->
  VoteSignBytes_panic chainID (st_msg st) = None ->
  extensionSignatures chainID (st_pv st) (st_msg st) = Ok sigs ->
  Vote_ExtensionSignature (st_msg (fst (signVote chainID true now st))) = fst sigs
  /\ Vote_NonRpExtensionSignature (st_msg (fst (signVote chainID true now st)))
     = snd sigs.
Proof.
  intros Hstep Hchk Henc Hext. unfold_procs. rewrite Hstep, Hchk, Henc, Hext.
  cbn [fst snd st_pv st_msg st_fs st_trace].
  repeat next_case; cbn; auto.
Qed.

(** [Key_Sign] returns a signature exactly when the validator has a private
    key whose [Sign] returns it. *)
Lemma Key_Sign_signed (pv : FilePV) (msg sig : bytes) :
  Key_Sign (Key pv) msg = Ok sig <-> signed_with_key pv msg sig.
Proof.
  unfold Key_Sign, signed_with_key. split.
  - destruct (PrivKey (Key pv)) as [sk |]; [| discriminate].
    destruct (PrivKey_Sign sk msg) as [s | e] eqn:Hs; [| discriminate].
    intros H. inversion H; subst. exists sk. auto.
  - intros (sk & -> & ->). reflexivity.
Qed.

(** C4, as amended. A call of [signVote] with [signExtension] set that passes
    [CheckHRS] and for which the encoder returns the sign bytes of the vote:
    for a precommit with a block id that is not nil, the two extension sign
    bytes are each signed with the private key of the validator and, both
    signings succeeding, the two signatures are put in the vote, whatever the
    length of the extensions; for any other vote, a non-empty [Extension] or
    [NonRpExtension] makes the call fail with [ErrUnexpectedVoteExtension],
    the vote untouched, and with both empty the two extension signatures of
    the vote are nil. When the encoder panics on the vote (a block id that
    does not pass its validation), the call panics with the same value before
    the vote-extension block: the vote is untouched and no error is
    returned. *)
Theorem vote_extension_signing (chainID : string) (now : time_Time)
    (st : State Vote) (step : Z) (sameHRS : bool) :
  voteToStep (st_msg st) = Ok step ->
  CheckHRS (LastSignState (st_pv st)) (Vote_Height (st_msg st))
    (Vote_Round (st_msg st)) step = Ok sameHRS ->
  let vote := st_msg st in
  let out := signVote chainID true now st in
  let vote' := st_msg (fst out) in
  (VoteSignBytes_panic chainID vote = None ->
   (nonnil_precommit vote ->
    forall extSig nonRpExtSig : bytes,
      signed_with_key (st_pv st) (fst (VoteExtensionSignBytes chainID vote)) extSig ->
      signed_with_key (st_pv st) (snd (VoteExtensionSignBytes chainID vote))
        nonRpExtSig ->
      Vote_ExtensionSignature vote' = extSig
      /\ Vote_NonRpExtensionSignature vote' = nonRpExtSig)
   /\ (~ nonnil_precommit vote ->
       len (Vote_Extension vote) > 0 \/ len (Vote_NonRpExtension vote) > 0 ->
       snd out = Err ErrUnexpectedVoteExtension /\ vote' = vote)
   /\ (~ nonnil_precommit vote ->
       len (Vote_Extension vote) = 0 -> len (Vote_NonRpExtension vote) = 0 ->
       Vote_ExtensionSignature vote' = None
       /\ Vote_NonRpExtensionSignature vote' = None))
  /\ (forall m : string,
        VoteSignBytes_panic chainID vote = Some m -> out = (st, Panic m)).
Proof.
  intros Hstep Hchk. cbv zeta. split; [intros Henc; split; [| split] |].
  - intros Hv extSig nonRpExtSig H1 H2.
    apply Key_Sign_signed in H1. apply Key_Sign_signed in H2.
    apply (signVote_extension_fields chainID now st step sameHRS
             (extSig, nonRpExtSig) Hstep Hchk Henc).
    rewrite extensionSignatures_precommit, H1, H2 by assumption. reflexivity.
  - intros Hv Hlen.
    assert (Hext : extensionSignatures chainID (st_pv st) (st_msg st)
                   = Err ErrUnexpectedVoteExtension).
    { rewrite extensionSignatures_other by assumption.
      destruct (Z.gtb_spec (len (Vote_Extension (st_msg st))) 0),
               (Z.gtb_spec (len (Vote_NonRpExtension (st_msg st))) 0);
        cbn; try reflexivity; lia. }
    unfold_procs. rewrite Hstep, Hchk, Henc, Hext. cbn. auto.
  - intros Hv Hl1 Hl2.
    apply (signVote_extension_fields chainID now st step sameHRS (None, None)
             Hstep Hchk Henc).
    rewrite extensionSignatures_other by assumption.
    destruct (Z.gtb_spec (len (Vote_Extension (st_msg st))) 0),
             (Z.gtb_spec (len (Vote_NonRpExtension (st_msg st))) 0);
      cbn; try reflexivity; lia.
  - intros m Henc.
    apply (signVote_encoder_panic chainID true now st step sameHRS m Hstep Hchk Henc).
Qed.

(** What a call of [signVote] with [signExtension] set that got past the
    vote-extension block says of the block. *)
Lemma extension_block_passed (chainID : string) (st : State Vote)
    (sigs : bytes * bytes) :
  extensionSignatures chainID (st_pv st) (st_msg st) = Ok sigs ->
  (nonnil_precommit (st_msg st) ->
   Key_Sign (Key (st_pv st)) (fst (VoteExtensionSignBytes chainID (st_msg st)))
   = Ok (fst sigs)
   /\ Key_Sign (Key (st_pv st)) (snd (VoteExtensionSignBytes chainID (st_msg st)))
      = Ok (snd sigs))
  /\ (~ nonnil_precommit (st_msg st) ->
      len (Vote_Extension (st_msg st)) = 0
      /\ len (Vote_NonRpExtension (st_msg st)) = 0
      /\ sigs = (None, None)).
Proof.
  intros Hext. split; intros Hv.
  - rewrite extensionSignatures_precommit in Hext by assumption.
    destruct (Key_Sign (Key (st_pv st)) (fst (VoteExtensionSignBytes chainID (st_msg st))));
      cbn in Hext; try discriminate.
    destruct (Key_Sign (Key (st_pv st)) (snd (VoteExtensionSignBytes chainID (st_msg st))));
      cbn in Hext; try discriminate.
    inversion Hext; subst. auto.
  - rewrite extensionSignatures_other in Hext by assumption.
    destruct (Z.gtb_spec (len (Vote_Extension (st_msg st))) 0),
             (Z.gtb_spec (len (Vote_NonRpExtension (st_msg st))) 0);
      cbn in Hext; try discriminate.
    inversion Hext; subst. unfold len in *. repeat split; lia.
Qed.

(** The errors of the checker and of the vote-extension block are not the
    error of the resolver. *)
Lemma CheckHRS_not_conflicting (lss : FilePVLastSignState) (h r s : Z) :
  CheckHRS lss h r s <> Err ErrConflictingData.
Proof.
  unfold CheckHRS.
  repeat match goal with
         | |- context [if ?c then _ else _] => destruct c
         end; discriminate.
Qed.

Lemma Key_Sign_not_conflicting (pvKey : FilePVKey) (msg : bytes) :
  Key_Sign pvKey msg <> Err ErrConflictingData.
Proof.
  unfold Key_Sign. destruct (PrivKey pvKey) as [sk |]; [| discriminate].
  destruct (PrivKey_Sign sk msg); discriminate.
Qed.

Lemma extensionSignatures_not_conflicting (chainID : string) (pv : FilePV)
    (vote : Vote) :
  extensionSignatures chainID pv vote <> Err ErrConflictingData.
Proof.
  unfold extensionSignatures.
  destruct (SignedMsgType_eqb (Vote_Type vote) PrecommitType
            && negb (ProtoBlockIDIsNil (Vote_BlockID vote))).
  - destruct (VoteExtensionSignBytes chainID vote) as [b1 b2].
    pose proof (Key_Sign_not_conflicting (Key pv) b1) as H1.
    pose proof (Key_Sign_not_conflicting (Key pv) b2) as H2.
    destruct (Key_Sign (Key pv) b1); cbn; try congruence.
    destruct (Key_Sign (Key pv) b2); cbn; congruence.
  - destruct ((len (Vote_Extension vote) >? 0) || (len (Vote_NonRpExtension vote) >? 0));
      discriminate.
Qed.

(** A call with [signExtension] set that succeeds, or fails in the resolver,
    got past the checker and the vote-extension block. *)
Lemma signVote_past_extension (chainID : string) (now : time_Time) (st : State Vote) :
  snd (signVote chainID true now st) = Ok tt
  \/ snd (signVote chainID true now st) = Err ErrConflictingData ->
  exists (step : Z) (sameHRS : bool) (sigs : bytes * bytes),
    voteToStep (st_msg st) = Ok step
    /\ CheckHRS (LastSignState (st_pv st)) (Vote_Height (st_msg st))
         (Vote_Round (st_msg st)) step = Ok sameHRS
    /\ VoteSignBytes_panic chainID (st_msg st) = None
    /\ extensionSignatures chainID (st_pv st) (st_msg st) = Ok sigs.
Proof.
  unfold_procs.
  assert (Hv : forall e, voteToStep (st_msg st) <> Err e).
  { intros e. unfold voteToStep. destruct (Vote_Type (st_msg st)); discriminate. }
  destruct (voteToStep (st_msg st)) as [step | e | m | m] eqn:Hstep; cbn;
    try (intros [H | H]; discriminate); [| contradiction (Hv e); reflexivity].
  clear Hv.
  pose proof (CheckHRS_not_conflicting (LastSignState (st_pv st))
                (Vote_Height (st_msg st)) (Vote_Round (st_msg st)) step) as Hc.
  destruct (CheckHRS (LastSignState (st_pv st)) (Vote_Height (st_msg st))
              (Vote_Round (st_msg st)) step) as [sameHRS | e | m | m] eqn:Hchk; cbn;
    try (intros [H | H]; congruence).
  destruct (VoteSignBytes_panic chainID (st_msg st)) as [m |] eqn:Henc; cbn;
    try (intros [H | H]; discriminate).
  pose proof (extensionSignatures_not_conflicting chainID (st_pv st) (st_msg st)) as He.
  destruct (extensionSignatures chainID (st_pv st) (st_msg st))
    as [sigs | e | m | m] eqn:Hext;
    cbn; try (intros [H | H]; congruence).
  intros _. exists step, sameHRS, sigs. auto.
Qed.

(** The resolver fails only at the watermark, and leaves the signature of the
    vote alone when it does. *)
Lemma signVote_conflict_signature (chainID : string) (signExtension : bool)
    (now : time_Time) (st : State Vote) :
  snd (signVote chainID signExtension now st) = Err ErrConflictingData ->
  Vote_Signature (st_msg (fst (signVote chainID signExtension now st)))
  = Vote_Signature (st_msg st).
Proof.
  unfold_procs.
  repeat next_case; cbn; intros; try discriminate; try reflexivity.
Qed.

(** A call that panics leaves the signature of the vote alone. *)
Lemma signVote_panic_signature (chainID : string) (signExtension : bool)
    (now : time_Time) (st : State Vote) (m : string) :
  snd (signVote chainID signExtension now st) = Panic m ->
  Vote_Signature (st_msg (fst (signVote chainID signExtension now st)))
  = Vote_Signature (st_msg st).
Proof.
  unfold_procs.
  repeat next_case; cbn; intros; try discriminate; try reflexivity.
Qed.

(** The vote-extension block with [signExtension] set returned no error: it
    produced the two signatures. *)
Lemma extension_step_ok_sigs (chainID : string) (pv : FilePV) (vote : Vote) :
  extension_step_ok chainID true pv vote = true ->
  exists sigs : bytes * bytes, extensionSignatures chainID pv vote = Ok sigs.
Proof.
  unfold extension_step_ok. cbn [negb orb].
  destruct (extensionSignatures chainID pv vote) as [sigs | | |]; try discriminate.
  intros _. exists sigs. reflexivity.
Qed.

(** C10. A call of [signVote] with [signExtension] set that fails in the
    replay resolver, with [ErrConflictingData] or with the panic of the
    resolver on sign bytes that do not decode, has already overwritten the
    two extension signatures of the vote: for a precommit with a block id
    that is not nil, with what [Sign] of the private key of the validator
    returned for the two extension sign bytes of the vote; with nil for any
    other vote, whose extensions are then empty. The signature of the vote is
    as it was. *)
Theorem failed_replay_overwrites_extension_signatures (chainID : string)
    (now : time_Time) (st : State Vote) :
  let vote := st_msg st in
  let out := signVote chainID true now st in
  let vote' := st_msg (fst out) in
  fails_in_resolver chainID now st ->
  Vote_Signature vote' = Vote_Signature vote
  /\ (nonnil_precommit vote ->
      signed_with_key (st_pv st) (fst (VoteExtensionSignBytes chainID vote))
        (Vote_ExtensionSignature vote')
      /\ signed_with_key (st_pv st) (snd (VoteExtensionSignBytes chainID vote))
           (Vote_NonRpExtensionSignature vote'))
  /\ (~ nonnil_precommit vote ->
      len (Vote_Extension vote) = 0 /\ len (Vote_NonRpExtension vote) = 0
      /\ Vote_ExtensionSignature vote' = None
      /\ Vote_NonRpExtensionSignature vote' = None).
Proof.
  cbv zeta. intros Hfail.
  assert (Hpast : exists (step : Z) (sameHRS : bool) (sigs : bytes * bytes),
             voteToStep (st_msg st) = Ok step
             /\ CheckHRS (LastSignState (st_pv st)) (Vote_Height (st_msg st))
                  (Vote_Round (st_msg st)) step = Ok sameHRS
             /\ VoteSignBytes_panic chainID (st_msg st) = None
             /\ extensionSignatures chainID (st_pv st) (st_msg st) = Ok sigs).
  { destruct Hfail as [Herr | (step & m & Hstep & Hchk & Henc & Hext & _)].
    - apply (signVote_past_extension chainID now st (or_intror Herr)).
    - destruct (extension_step_ok_sigs chainID (st_pv st) (st_msg st) Hext)
        as (sigs & Hsigs).
      exists step, true, sigs. auto. }
  destruct Hpast as (step & sameHRS & sigs & Hstep & Hchk & Henc & Hext).
  destruct (signVote_extension_fields chainID now st step sameHRS sigs
              Hstep Hchk Henc Hext) as [E1 E2].
  destruct (extension_block_passed chainID st sigs Hext) as [Hpre Hoth].
  rewrite E1, E2. split; [| split].
  - destruct Hfail as [Herr | (_ & m & _ & _ & _ & _ & Hpanic)].
    + apply signVote_conflict_signature. assumption.
    + apply (signVote_panic_signature chainID true now st m Hpanic).
  - intros Hv. destruct (Hpre Hv) as [H1 H2].
    split; apply Key_Sign_signed; assumption.
  - intros Hv. destruct (Hoth Hv) as (L1 & L2 & ->). auto.
Qed.

(** At the watermark a call that succeeds has reused the stored signature. *)
Lemma signVote_reuse_signature (chainID : string) (signExtension : bool)
    (now : time_Time) (st : State Vote) (step : Z) :
  voteToStep (st_msg st) = Ok step ->
  hrs_of (LastSignState (st_pv st))
  = (Vote_Height (st_msg st), Vote_Round (st_msg st), step) ->
  snd (signVote chainID signExtension now st) = Ok tt ->
  Vote_Signature (st_msg (fst (signVote chainID signExtension now st)))
  = Signature (LastSignState (st_pv st))
  /\ same_store st (fst (signVote chainID signExtension now st)).
Proof.
  intros Hstep Hhrs.
  assert (Hnf : CheckHRS (LastSignState (st_pv st)) (Vote_Height (st_msg st))
                  (Vote_Round (st_msg st)) step <> Ok false).
  { intros Hf. apply CheckHRS_fresh in Hf. rewrite Hhrs in Hf.
    eapply hrs_lt_irrefl. exact Hf. }
  unfold same_store. unfold_procs. rewrite Hstep.
  cbn [fst snd st_pv st_msg st_fs st_trace].
  destruct (CheckHRS (LastSignState (st_pv st)) (Vote_Height (st_msg st))
              (Vote_Round (st_msg st)) step) as [[|] | e | m | m];
    cbn [fst snd st_pv st_msg st_fs st_trace]; try congruence; try discriminate.
  repeat next_case; cbn; intros; try discriminate; auto.
Qed.

(** C5. A call of [signVote] with [signExtension] set, for a precommit with a
    block id that is not nil whose height, round and step are those of the
    stored watermark, that succeeds: the signature of the vote is the stored
    one, the watermark is neither set nor written, and the two extension
    signatures of the vote are what [Sign] of the private key of the
    validator returned, in this call, for the two extension sign bytes
    derived from the vote. *)
Theorem reuse_resigns_extensions (chainID : string) (now : time_Time)
    (st : State Vote) :
  let vote := st_msg st in
  let lss := LastSignState (st_pv st) in
  let out := signVote chainID true now st in
  let vote' := st_msg (fst out) in
  snd out = Ok tt ->
  hrs_of lss = (Vote_Height vote, Vote_Round vote, stepPrecommit) ->
  nonnil_precommit vote ->
  Vote_Signature vote' = Signature lss
  /\ same_store st (fst out)
  /\ signed_with_key (st_pv st) (fst (VoteExtensionSignBytes chainID vote))
       (Vote_ExtensionSignature vote')
  /\ signed_with_key (st_pv st) (snd (VoteExtensionSignBytes chainID vote))
       (Vote_NonRpExtensionSignature vote').
Proof.
  cbv zeta. intros Hok Hhrs Hv.
  assert (Hstep0 : voteToStep (st_msg st) = Ok stepPrecommit).
  { unfold voteToStep. destruct Hv as [-> _]. reflexivity. }
  destruct (signVote_past_extension chainID now st (or_introl Hok))
    as (step & sameHRS & sigs & Hstep & Hchk & Henc & Hext).
  destruct (signVote_extension_fields chainID now st step sameHRS sigs
              Hstep Hchk Henc Hext) as [E1 E2].
  destruct (extension_block_passed chainID st sigs Hext) as [Hpre _].
  destruct (signVote_reuse_signature chainID true now st stepPrecommit
              Hstep0 Hhrs Hok) as [Hsig Hst].
  rewrite E1, E2. destruct (Hpre Hv) as [H1 H2].
  repeat split; try apply Hst; try assumption; apply Key_Sign_signed; assumption.
Qed.

(** ** Persistence before visibility *)

(** Settles the three tests of [Save] from what is known of them. *)
Ltac settle_save :=
  repeat match goal with
         | H : ?p <> ""%string |- context [String.eqb ?p ""] =>
             let E := fresh "E" in
             destruct (String.eqb_spec p "") as [E | E]; [contradiction | clear E]
         | H : ?p = ""%string |- context [String.eqb ?p ""] =>
             rewrite H; cbn [String.eqb]
         | H : MarshalIndent_LastSignState _ = _ |- _ => rewrite H
         | H : WriteFileAtomic _ _ _ = _ |- _ => rewrite H
         end.

Lemma signVote_fresh (chainID : string) (signExtension : bool) (now : time_Time)
    (st : State Vote) (step : Z) (sig : bytes) :
  voteToStep (st_msg st) = Ok step ->
  CheckHRS (LastSignState (st_pv st)) (Vote_Height (st_msg st))
    (Vote_Round (st_msg st)) step = Ok false ->
  VoteSignBytes_panic chainID (st_msg st) = None ->
  extension_step_ok chainID signExtension (st_pv st) (st_msg st) = true ->
  Key_Sign (Key (st_pv st)) (VoteSignBytes chainID (st_msg st)) = Ok sig ->
  fresh_outcome Vote_Signature
    (Vote_Height (st_msg st), Vote_Round (st_msg st), step)
    (VoteSignBytes chainID (st_msg st)) sig st
    (signVote chainID signExtension now st).
Proof.
  intros Hstep Hchk Henc Hext Hsig.
  unfold fresh_outcome, signed_lss, extension_step_ok in *. cbv zeta.
  cbn [lss_filePath].
  assert (Hsigs : signExtension = false
                  \/ exists sigs, signExtension = true
                       /\ extensionSignatures chainID (st_pv st) (st_msg st) = Ok sigs).
  { destruct signExtension; [right | left; reflexivity].
    cbn [negb orb] in Hext.
    destruct (extensionSignatures chainID (st_pv st) (st_msg st)) as [sigs | | |];
      try discriminate.
    exists sigs. auto. }
  unfold_procs. rewrite Hstep, Hchk, Henc.
  cbn [fst snd st_pv st_msg st_fs st_trace lss_filePath].
  destruct Hsigs as [-> | (sigs & -> & ->)];
    cbn [fst snd st_pv st_msg st_fs st_trace lss_filePath]; rewrite Hsig;
    cbn [fst snd st_pv st_msg st_fs st_trace lss_filePath]; split.
  all: try (intros jsonBytes fs' Hpath Hm Hw; settle_save; cbn;
            rewrite <- !app_assoc; cbn; auto).
  all: intros [Hpath | [(e & Hm) | (jsonBytes & e & Hm & Hw)]]; settle_save; cbn;
    try destruct (String.eqb _ _); cbn; (split; [eexists; reflexivity | auto]).
Qed.

Lemma signProposal_fresh (chainID : string) (now : time_Time) (st : State Proposal)
    (sig : bytes) :
  CheckHRS (LastSignState (st_pv st)) (Proposal_Height (st_msg st))
    (Proposal_Round (st_msg st)) stepPropose = Ok false ->
  ProposalSignBytes_panic chainID (st_msg st) = None ->
  Key_Sign (Key (st_pv st)) (ProposalSignBytes chainID (st_msg st)) = Ok sig ->
  fresh_outcome Proposal_Signature
    (Proposal_Height (st_msg st), Proposal_Round (st_msg st), stepPropose)
    (ProposalSignBytes chainID (st_msg st)) sig st
    (signProposal chainID now st).
Proof.
  intros Hchk Henc Hsig.
  unfold fresh_outcome, signed_lss. cbv zeta. cbn [lss_filePath].
  unfold_procs. rewrite Hchk, Henc.
  cbn [fst snd st_pv st_msg st_fs st_trace lss_filePath]. rewrite Hsig.
  cbn [fst snd st_pv st_msg st_fs st_trace lss_filePath]. split.
  - intros jsonBytes fs' Hpath Hm Hw; settle_save; cbn.
    rewrite <- !app_assoc; cbn; auto.
  - intros [Hpath | [(e & Hm) | (jsonBytes & e & Hm & Hw)]]; settle_save; cbn;
      try destruct (String.eqb _ _); cbn; (split; [eexists; reflexivity | auto]).
Qed.

(** C7. A call of [signVote] or [signProposal] that signs afresh (the request
    is above the watermark, the encoder returned the sign bytes, the
    vote-extension block returned no error, and the private key signed the
    sign bytes): the watermark carrying the new signature is written to the
    state file by [saveSigned] before the signature is put in the message,
    and the call returns only after both;
    when the write does not succeed the call panics without having put the
    signature in the message. When the encoder panics instead of returning
    the sign bytes, the call panics with the same value: nothing is signed,
    written or put in the message. *)
Theorem persistence_precedes_signature (chainID : string) (now : time_Time) :
  (forall (signExtension : bool) (st : State Vote) (step : Z) (sig : bytes),
      voteToStep (st_msg st) = Ok step ->
      CheckHRS (LastSignState (st_pv st)) (Vote_Height (st_msg st))
        (Vote_Round (st_msg st)) step = Ok false ->
      VoteSignBytes_panic chainID (st_msg st) = None ->
      extension_step_ok chainID signExtension (st_pv st) (st_msg st) = true ->
      Key_Sign (Key (st_pv st)) (VoteSignBytes chainID (st_msg st)) = Ok sig ->
      fresh_outcome Vote_Signature
        (Vote_Height (st_msg st), Vote_Round (st_msg st), step)
        (VoteSignBytes chainID (st_msg st)) sig st
        (signVote chainID signExtension now st))
  /\ (forall (st : State Proposal) (sig : bytes),
      CheckHRS (LastSignState (st_pv st)) (Proposal_Height (st_msg st))
        (Proposal_Round (st_msg st)) stepPropose = Ok false ->
      ProposalSignBytes_panic chainID (st_msg st) = None ->
      Key_Sign (Key (st_pv st)) (ProposalSignBytes chainID (st_msg st)) = Ok sig ->
      fresh_outcome Proposal_Signature
        (Proposal_Height (st_msg st), Proposal_Round (st_msg st), stepPropose)
        (ProposalSignBytes chainID (st_msg st)) sig st
        (signProposal chainID now st))
  /\ (forall (signExtension : bool) (st : State Vote) (step : Z) (m : string),
      voteToStep (st_msg st) = Ok step ->
      CheckHRS (LastSignState (st_pv st)) (Vote_Height (st_msg st))
        (Vote_Round (st_msg st)) step = Ok false ->
      VoteSignBytes_panic chainID (st_msg st) = Some m ->
      signVote chainID signExtension now st = (st, Panic m))
  /\ (forall (st : State Proposal) (m : string),
      CheckHRS (LastSignState (st_pv st)) (Proposal_Height (st_msg st))
        (Proposal_Round (st_msg st)) stepPropose = Ok false ->
      ProposalSignBytes_panic chainID (st_msg st) = Some m ->
      signProposal chainID now st = (st, Panic m)).
Proof.
  split; [| split; [| split]].
  - intros signExtension st step sig. apply signVote_fresh.
  - intros st sig. apply signProposal_fresh.
  - intros signExtension st step m. apply signVote_encoder_panic.
  - intros st m. apply signProposal_encoder_panic.
Qed.


(** ** Loading *)

(** A load that gets past the key file. *)
Lemma loadFilePV_key (fs : FS) (keyFilePath stateFilePath : string)
    (loadState : bool) (keyJSONBytes : bytes) (pvKey : FilePVKey)
    (sk : crypto_PrivKey) :
  os_ReadFile fs keyFilePath = inl keyJSONBytes ->
  Unmarshal_Key keyJSONBytes = inl pvKey ->
  PrivKey pvKey = Some sk ->
  loadFilePV fs keyFilePath stateFilePath loadState
  = result_bind
      (if loadState then
         match os_ReadFile fs stateFilePath with
         | inr e => Exit e
         | inl stateJSONBytes =>
             match Unmarshal_LastSignState stateJSONBytes with
             | inr e =>
                 Exit ("Error reading PrivValidator state from "
                         ++ stateFilePath ++ ": " ++ e ++ newline)%string
             | inl pvState => Ok pvState
             end
         end
       else Ok (emptyLSS ""))
      (fun pvState =>
         Ok (mkFilePV
               (mkKey (PubKey_Address (PrivKey_PubKey sk)) (Some (PrivKey_PubKey sk))
                  (Some sk) keyFilePath)
               (mkLSS (Height pvState) (Round pvState) (Step pvState)
                  (Signature pvState) (SignBytes pvState) stateFilePath))).
Proof.
  intros Hr Hu Hk. unfold loadFilePV. rewrite Hr, Hu, Hk. reflexivity.
Qed.

(** C8, as amended. With a key file that is present and well formed: a load
    with [loadState] set whose state file cannot be read does not succeed, it
    ends the process with the error of the read; a load with [loadState] not
    set succeeds without reading the state file, and its last-sign state is
    the empty one (height 0, round 0, step 0, no sign bytes, no signature) at
    the given path. *)
Theorem load_without_state_file (fs : FS) (keyFilePath stateFilePath : string)
    (keyJSONBytes : bytes) (pvKey : FilePVKey) (sk : crypto_PrivKey) :
  os_ReadFile fs keyFilePath = inl keyJSONBytes ->
  Unmarshal_Key keyJSONBytes = inl pvKey ->
  PrivKey pvKey = Some sk ->
  (forall e : string,
      os_ReadFile fs stateFilePath = inr e ->
      loadFilePV fs keyFilePath stateFilePath true = Exit e)
  /\ (exists pv : FilePV,
        loadFilePV fs keyFilePath stateFilePath false = Ok pv
        /\ LastSignState pv = emptyLSS stateFilePath).
Proof.
  intros Hr Hu Hk. split.
  - intros e He.
    rewrite (loadFilePV_key fs keyFilePath stateFilePath true _ _ _ Hr Hu Hk), He.
    reflexivity.
  - rewrite (loadFilePV_key fs keyFilePath stateFilePath false _ _ _ Hr Hu Hk).
    cbn. eexists. split; reflexivity.
Qed.

(** C9. A load that succeeds returns a validator whose private key is the one
    parsed from the key file, whose public key is derived from that private
    key and whose address is derived from that public key, whatever address
    and public key the file holds. *)
Theorem load_rederives_identity (fs : FS) (keyFilePath stateFilePath : string)
    (loadState : bool) (pv : FilePV) :
  loadFilePV fs keyFilePath stateFilePath loadState = Ok pv ->
  exists (keyJSONBytes : bytes) (pvKey : FilePVKey) (sk : crypto_PrivKey),
    os_ReadFile fs keyFilePath = inl keyJSONBytes
    /\ Unmarshal_Key keyJSONBytes = inl pvKey
    /\ PrivKey pvKey = Some sk
    /\ PrivKey (Key pv) = Some sk
    /\ PubKey (Key pv) = Some (PrivKey_PubKey sk)
    /\ Address (Key pv) = PubKey_Address (PrivKey_PubKey sk).
Proof.
  unfold loadFilePV.
  destruct (os_ReadFile fs keyFilePath) as [keyJSONBytes | e] eqn:Hr; [| discriminate].
  destruct (Unmarshal_Key keyJSONBytes) as [pvKey | e] eqn:Hu; [| discriminate].
  destruct (PrivKey pvKey) as [sk |] eqn:Hk; [| discriminate].
  intros Hload. exists keyJSONBytes, pvKey, sk.
  repeat (split; [first [reflexivity | assumption] |]).
  destruct loadState.
  - destruct (os_ReadFile fs stateFilePath) as [b | e]; [| discriminate].
    destruct (Unmarshal_LastSignState b) as [pvState | e]; [| discriminate].
    cbn in Hload. inversion Hload; subst. cbn. repeat split; reflexivity.
  - cbn in Hload. inversion Hload; subst. cbn. repeat split; reflexivity.
Qed.

End Properties.


(** * Further properties *)

(** ** One call, whatever its outcome *)

Section Frames.
Context {SS : SignatureScheme} {PT : ProtoTypes} {CE : CanonicalEncoder}
        {OS : FileSystem} {JS : JSONCodec}.

(** Unfolds the procedures down to the state transformer they denote. *)
Ltac unfold_all :=
  unfold SignVote, SignProposal, wrap_error, signVote, signProposal, saveSigned,
    types_VoteSignBytes, types_ProposalSignBytes,
    FilePV_Reset, FilePV_Save, FilePVKey_Save,
    LastSignState_Save, bind, lift, ret, get_msg, get_pv, modify_msg, emit in *;
  cbn [fst snd st_pv st_msg st_fs st_trace Key LastSignState lss_filePath] in *.

(** Splits on the next value the procedure branches on. *)
Ltac split_case :=
  match goal with
  | |- context [match ?x with _ => _ end] =>
      lazymatch x with
      | context [match _ with _ => _ end] => fail
      | _ => destruct x eqn:?
      end
  end; cbn [fst snd st_pv st_msg st_fs st_trace Key LastSignState lss_filePath] in *.

(** X1. A call of [signVote] or [signProposal] never changes the key of the
    validator nor the path of its state file, whether it succeeds, returns an
    error or panics. *)
Theorem signing_keeps_key_and_path (chainID : string) (now : time_Time) :
  (forall (signExtension : bool) (st : State Vote),
      Key (st_pv (fst (signVote chainID signExtension now st))) = Key (st_pv st)
      /\ lss_filePath (LastSignState (st_pv (fst (signVote chainID signExtension now st))))
         = lss_filePath (LastSignState (st_pv st)))
  /\ (forall st : State Proposal,
      Key (st_pv (fst (signProposal chainID now st))) = Key (st_pv st)
      /\ lss_filePath (LastSignState (st_pv (fst (signProposal chainID now st))))
         = lss_filePath (LastSignState (st_pv st))).
Proof.
  split; intros; unfold_all; repeat split_case; cbn; auto.
Qed.

(** X2. A call of [signVote] changes no field of the vote but its signature,
    its timestamp and its two extension signatures: the type, height, round,
    block id, validator address and index and the two extensions are as they
    were. Without [signExtension] the extension signatures are as they were
    too, and a call that does not succeed (an error or a panic) has changed
    neither the signature nor the timestamp. *)
Theorem signVote_frame (chainID : string) (signExtension : bool) (now : time_Time)
    (st : State Vote) :
  let vote := st_msg st in
  let vote' := st_msg (fst (signVote chainID signExtension now st)) in
  (Vote_Type vote' = Vote_Type vote
   /\ Vote_Height vote' = Vote_Height vote
   /\ Vote_Round vote' = Vote_Round vote
   /\ Vote_BlockID vote' = Vote_BlockID vote
   /\ Vote_ValidatorAddress vote' = Vote_ValidatorAddress vote
   /\ Vote_ValidatorIndex vote' = Vote_ValidatorIndex vote
   /\ Vote_Extension vote' = Vote_Extension vote
   /\ Vote_NonRpExtension vote' = Vote_NonRpExtension vote)
  /\ (signExtension = false ->
      Vote_ExtensionSignature vote' = Vote_ExtensionSignature vote
      /\ Vote_NonRpExtensionSignature vote' = Vote_NonRpExtensionSignature vote)
  /\ (snd (signVote chainID signExtension now st) <> Ok tt ->
      Vote_Signature vote' = Vote_Signature vote
      /\ Vote_Timestamp vote' = Vote_Timestamp vote).
Proof.
  cbv zeta. split; [| split].
  - unfold_all. repeat split_case; cbn; repeat split; reflexivity.
  - intros ->. unfold_all. repeat split_case; cbn; split; reflexivity.
  - unfold_all. repeat split_case; cbn; intros; try congruence;
      split; reflexivity.
Qed.

(** X3. A call of [signProposal] changes no field of the proposal but its
    signature and its timestamp, and a call that does not succeed leaves the
    proposal as it was. *)
Theorem signProposal_frame (chainID : string) (now : time_Time) (st : State Proposal) :
  let proposal := st_msg st in
  let proposal' := st_msg (fst (signProposal chainID now st)) in
  (Proposal_Type proposal' = Proposal_Type proposal
   /\ Proposal_Height proposal' = Proposal_Height proposal
   /\ Proposal_Round proposal' = Proposal_Round proposal
   /\ Proposal_PolRound proposal' = Proposal_PolRound proposal
   /\ Proposal_BlockID proposal' = Proposal_BlockID proposal)
  /\ (snd (signProposal chainID now st) <> Ok tt -> proposal' = proposal).
Proof.
  cbv zeta. split.
  - unfold_all. repeat split_case; cbn; repeat split; reflexivity.
  - unfold_all. repeat split_case; cbn; intros; try congruence; reflexivity.
Qed.

(** ** The watermark after a call *)

(** A call of [signVote] that succeeds either reused the stored signature at
    the watermark, the validator untouched, or signed afresh above it and set
    the watermark to the request with the new signature. *)
Lemma signVote_success (chainID : string) (signExtension : bool) (now : time_Time)
    (st : State Vote) (step : Z) :
  voteToStep (st_msg st) = Ok step ->
  snd (signVote chainID signExtension now st) = Ok tt ->
  let q := (Vote_Height (st_msg st), Vote_Round (st_msg st), step) in
  let st' := fst (signVote chainID signExtension now st) in
  (st_pv st' = st_pv st
   /\ CheckHRS (LastSignState (st_pv st)) (Vote_Height (st_msg st))
        (Vote_Round (st_msg st)) step = Ok true
   /\ Vote_Signature (st_msg st') = Signature (LastSignState (st_pv st)))
  \/ (hrs_lt (hrs_of (LastSignState (st_pv st))) q
      /\ st_pv st'
         = mkFilePV (Key (st_pv st))
             (signed_lss (st_pv st) q (VoteSignBytes chainID (st_msg st))
                (Vote_Signature (st_msg st')))).
Proof.
  intros Hstep. cbv zeta. unfold_all. rewrite Hstep.
  cbn [fst snd st_pv st_msg st_fs st_trace].
  destruct (CheckHRS (LastSignState (st_pv st)) (Vote_Height (st_msg st))
              (Vote_Round (st_msg st)) step) as [[|] | e | m | m] eqn:Hchk;
    cbn [fst snd st_pv st_msg st_fs st_trace]; try discriminate.
  - repeat split_case; cbn; intros; try discriminate; left; auto.
  - apply CheckHRS_fresh in Hchk.
    repeat split_case; cbn; intros; try discriminate; right; auto.
Qed.

Lemma signProposal_success (chainID : string) (now : time_Time) (st : State Proposal) :
  snd (signProposal chainID now st) = Ok tt ->
  let q := (Proposal_Height (st_msg st), Proposal_Round (st_msg st), stepPropose) in
  let st' := fst (signProposal chainID now st) in
  (st_pv st' = st_pv st
   /\ CheckHRS (LastSignState (st_pv st)) (Proposal_Height (st_msg st))
        (Proposal_Round (st_msg st)) stepPropose = Ok true
   /\ Proposal_Signature (st_msg st') = Signature (LastSignState (st_pv st)))
  \/ (hrs_lt (hrs_of (LastSignState (st_pv st))) q
      /\ st_pv st'
         = mkFilePV (Key (st_pv st))
             (signed_lss (st_pv st) q (ProposalSignBytes chainID (st_msg st))
                (Proposal_Signature (st_msg st')))).
Proof.
  cbv zeta. unfold_all.
  destruct (CheckHRS (LastSignState (st_pv st)) (Proposal_Height (st_msg st))
              (Proposal_Round (st_msg st)) stepPropose) as [[|] | e | m | m] eqn:Hchk;
    cbn [fst snd st_pv st_msg st_fs st_trace]; try discriminate.
  - repeat split_case; cbn; intros; try discriminate; left; auto.
  - apply CheckHRS_fresh in Hchk.
    repeat split_case; cbn; intros; try discriminate; right; auto.
Qed.

(** X4. After a call of [signVote] or [signProposal] that succeeds, the
    watermark of the validator sits at the height, round and step of the
    request and its signature is the one the message carries. *)
Theorem success_sets_watermark (chainID : string) (now : time_Time) :
  (forall (signExtension : bool) (st : State Vote) (step : Z),
      voteToStep (st_msg st) = Ok step ->
      snd (signVote chainID signExtension now st) = Ok tt ->
      hrs_of (LastSignState (st_pv (fst (signVote chainID signExtension now st))))
      = (Vote_Height (st_msg st), Vote_Round (st_msg st), step)
      /\ Signature (LastSignState (st_pv (fst (signVote chainID signExtension now st))))
         = Vote_Signature (st_msg (fst (signVote chainID signExtension now st))))
  /\ (forall st : State Proposal,
      snd (signProposal chainID now st) = Ok tt ->
      hrs_of (LastSignState (st_pv (fst (signProposal chainID now st))))
      = (Proposal_Height (st_msg st), Proposal_Round (st_msg st), stepPropose)
      /\ Signature (LastSignState (st_pv (fst (signProposal chainID now st))))
         = Proposal_Signature (st_msg (fst (signProposal chainID now st)))).
Proof.
  split.
  - intros signExtension st step Hstep Hok.
    destruct (signVote_success chainID signExtension now st step Hstep Hok)
      as [(Hpv & Hchk & Hsig) | (Hlt & Hpv)]; rewrite Hpv.
    + apply CheckHRS_reuse in Hchk. destruct Hchk as (Hq & _). auto.
    + cbn [LastSignState]. rewrite hrs_of_signed_lss. auto.
  - intros st Hok.
    destruct (signProposal_success chainID now st Hok)
      as [(Hpv & Hchk & Hsig) | (Hlt & Hpv)]; rewrite Hpv.
    + apply CheckHRS_reuse in Hchk. destruct Hchk as (Hq & _). auto.
    + cbn [LastSignState]. rewrite hrs_of_signed_lss. auto.
Qed.

End Frames.


(** ** The signatures handed out in a run *)

Section Runs.
Context {SS : SignatureScheme} {PT : ProtoTypes} {CE : CanonicalEncoder}
        {OS : FileSystem} {JS : JSONCodec}.

Lemma serve_signed_at (req : Request) (n : Node) (o : HRS * bytes) :
  snd (serve req n) = Ok tt ->
  signed_by req n = Some o ->
  fst o = hrs_of (LastSignState (node_pv (fst (serve req n))))
  /\ snd o = Signature (LastSignState (node_pv (fst (serve req n)))).
Proof.
  destruct req as [chainID vote signExtension now | chainID proposal now];
    unfold serve, signed_by, node_of, SignVote, SignProposal;
    cbn [fst snd node_pv]; rewrite !wrap_error_state.
  - set (st := mkState (node_pv n) vote (node_fs n) (node_trace n)).
    unfold wrap_error.
    destruct (signVote chainID signExtension now st) as [st' r] eqn:Hrun.
    destruct r as [[] | e | m | m]; cbn [fst snd]; try discriminate.
    intros _.
    destruct (voteToStep vote) as [step | e | m | m] eqn:Hstep; try discriminate.
    intros Ho. inversion Ho; subst o. cbn [fst snd].
    assert (Hok : snd (signVote chainID signExtension now st) = Ok tt)
      by (rewrite Hrun; reflexivity).
    destruct (signVote_success chainID signExtension now st step Hstep Hok)
      as [(Hpv & Hchk & Hsig) | (Hlt & Hpv)];
      rewrite Hrun in *; cbn [fst snd st_pv st_msg] in *; rewrite Hpv.
    + apply CheckHRS_reuse in Hchk. destruct Hchk as (Hq & _).
      cbn [st_pv st_msg] in *. auto.
    + cbn [LastSignState]. rewrite hrs_of_signed_lss. auto.
  - set (st := mkState (node_pv n) proposal (node_fs n) (node_trace n)).
    unfold wrap_error.
    destruct (signProposal chainID now st) as [st' r] eqn:Hrun.
    destruct r as [[] | e | m | m]; cbn [fst snd]; try discriminate.
    intros _ Ho. inversion Ho; subst o. cbn [fst snd].
    assert (Hok : snd (signProposal chainID now st) = Ok tt)
      by (rewrite Hrun; reflexivity).
    destruct (signProposal_success chainID now st Hok)
      as [(Hpv & Hchk & Hsig) | (Hlt & Hpv)];
      rewrite Hrun in *; cbn [fst snd st_pv st_msg] in *; rewrite Hpv.
    + apply CheckHRS_reuse in Hchk. destruct Hchk as (Hq & _).
      cbn [st_pv st_msg] in *. auto.
    + cbn [LastSignState]. rewrite hrs_of_signed_lss. auto.
Qed.

(** A call leaves the validator as it was or raises its watermark. *)
Lemma serve_raises (req : Request) (n : Node) :
  node_pv (fst (serve req n)) = node_pv n
  \/ hrs_lt (hrs_of (LastSignState (node_pv n)))
       (hrs_of (LastSignState (node_pv (fst (serve req n))))).
Proof.
  destruct (serve_effect req n) as (d & _ & Heff).
  inversion Heff as [Hpv | Hpv | q sb sig Hq Hpv | q sb sig Hq Hpv];
    [left; reflexivity | left; reflexivity | right | right];
    cbn [LastSignState]; rewrite hrs_of_signed_lss; assumption.
Qed.

Lemma at_or_above_lower (pv pv' : FilePV) (o : HRS * bytes) :
  pv' = pv \/ hrs_lt (hrs_of (LastSignState pv)) (hrs_of (LastSignState pv')) ->
  at_or_above pv' o -> at_or_above pv o.
Proof.
  intros [-> | Hlt] Ho; [assumption |].
  left. destruct Ho as [Ho | [Ho _]].
  - eapply hrs_lt_trans; eassumption.
  - rewrite Ho. assumption.
Qed.

Lemma handed_out_inv (reqs : list Request) :
  forall n : Node,
    Forall (at_or_above (node_pv n)) (handed_out reqs n)
    /\ one_signature_per_hrs (handed_out reqs n).
Proof.
  induction reqs as [| req rest IH]; intros n; cbn [handed_out].
  - split; [constructor | intros q s1 s2 []].
  - pose proof (serve_raises req n) as Hup.
    pose proof (serve_signed_at req n) as Hat.
    destruct (serve req n) as [n' [[] | e | m | m]] eqn:Hserve; cbn [fst snd] in *;
      try (split; [constructor | intros q s1 s2 []]).
    + destruct (IH n') as [Hall Hone].
      assert (Hall' : Forall (at_or_above (node_pv n)) (handed_out rest n')).
      { eapply Forall_impl; [| exact Hall].
        intros o. apply at_or_above_lower. assumption. }
      destruct (signed_by req n) as [o |]; [| split; assumption].
      destruct (Hat o eq_refl eq_refl) as [Hq Hs].
      assert (Ho : at_or_above (node_pv n') o) by (right; split; assumption).
      split.
      * constructor; [| assumption].
        eapply at_or_above_lower; eassumption.
      * intros q s1 s2 [E1 | I1] [E2 | I2].
        -- congruence.
        -- subst o. cbn [fst snd] in *.
           rewrite Forall_forall in Hall. destruct (Hall _ I2) as [Hlt | [_ Hs2]];
             cbn [fst snd] in *; [| congruence].
           rewrite <- Hq in Hlt. exfalso. eapply hrs_lt_irrefl. exact Hlt.
        -- subst o. cbn [fst snd] in *.
           rewrite Forall_forall in Hall. destruct (Hall _ I1) as [Hlt | [_ Hs1]];
             cbn [fst snd] in *; [| congruence].
           rewrite <- Hq in Hlt. exfalso. eapply hrs_lt_irrefl. exact Hlt.
        -- eapply Hone; eassumption.
    + destruct (IH n') as [Hall Hone]. split; [| assumption].
      eapply Forall_impl; [| exact Hall].
      intros o. apply at_or_above_lower. assumption.
Qed.

(** X5. Whatever the validator and whatever the calls of [SignVote] and
    [SignProposal] it serves, two calls that succeed for the same height,
    round and step hand out the same signature. *)
Theorem one_signature_per_height_round_step (n : Node) (reqs : list Request)
    (q : HRS) (s1 s2 : bytes) :
  In (q, s1) (handed_out reqs n) ->
  In (q, s2) (handed_out reqs n) ->
  s1 = s2.
Proof.
  destruct (handed_out_inv reqs n) as [_ Hone]. apply Hone.
Qed.

(** X6. In a run no triple is passed to [saveSigned] twice and no two
    watermarks written to the state file have the same triple: at most one
    sign-bytes value is ever recorded for a height, round and step. *)
Theorem one_watermark_per_height_round_step (pv : FilePV) (fs : FS)
    (reqs : list Request) :
  NoDup (saved_hrs (node_trace (serve_all reqs (mkNode pv fs []))))
  /\ NoDup (persisted_hrs (node_trace (serve_all reqs (mkNode pv fs [])))).
Proof.
  assert (Hinit : watermark_inv (hrs_of (LastSignState pv)) (mkNode pv fs [])).
  { unfold watermark_inv, ordered_between. cbn.
    repeat split; try constructor; reflexivity. }
  apply (serve_all_inv _ reqs) in Hinit.
  destruct Hinit as (_ & (Hs1 & _) & (Hs2 & _)).
  assert (Hnd : forall l : list HRS, StronglySorted hrs_lt l -> NoDup l).
  { induction 1 as [| a l Hs IH Ha]; constructor; [| assumption].
    intros Hin. rewrite Forall_forall in Ha.
    eapply hrs_lt_irrefl. apply Ha. exact Hin. }
  split; apply Hnd; assumption.
Qed.

End Runs.


(** ** Consistency of the watermark *)

Section Consistency.
Context {SS : SignatureScheme} {PT : ProtoTypes} {CE : CanonicalEncoder}
        {OS : FileSystem} {JS : JSONCodec}.

Lemma serve_not_corrupt (req : Request) (n : Node) :
  (forall (sk : crypto_PrivKey) (msg sig : bytes),
      PrivKey_Sign sk msg = inl sig -> sig <> None) ->
  ~ corrupt (LastSignState (node_pv n)) ->
  ~ corrupt (LastSignState (node_pv (fst (serve req n)))).
Proof.
  intros Hsign Hn.
  assert (Hkey : forall (k : FilePVKey) (msg sig : bytes),
             Key_Sign k msg = Ok sig -> sig <> None).
  { intros k msg sig. unfold Key_Sign.
    destruct (PrivKey k) as [sk |]; [| discriminate].
    destruct (PrivKey_Sign sk msg) as [s | e] eqn:Hs; [| discriminate].
    intros H. inversion H; subst. eapply Hsign; eassumption. }
  destruct req as [chainID vote signExtension now | chainID proposal now];
    unfold serve, node_of, SignVote, SignProposal;
    cbn [fst snd node_pv]; rewrite wrap_error_state.
  - unfold signVote, types_VoteSignBytes, saveSigned, LastSignState_Save, bind,
      lift, ret, get_msg, get_pv, modify_msg, emit.
    cbn [fst snd st_pv st_msg st_fs st_trace Key LastSignState].
    repeat match goal with
           | |- context [match ?x with _ => _ end] =>
               lazymatch x with
               | context [match _ with _ => _ end] => fail
               | _ => destruct x eqn:?
               end
           end; cbn [fst snd st_pv st_msg st_fs st_trace Key LastSignState];
      try assumption.
    all: unfold corrupt; cbn [Signature SignBytes]; intros [_ Hnil];
      match goal with
      | H : Key_Sign _ (VoteSignBytes _ _) = Ok _ |- _ => apply Hkey in H
      end; contradiction.
  - unfold signProposal, types_ProposalSignBytes, saveSigned, LastSignState_Save,
      bind, lift, ret, get_msg, get_pv, modify_msg, emit.
    cbn [fst snd st_pv st_msg st_fs st_trace Key LastSignState].
    repeat match goal with
           | |- context [match ?x with _ => _ end] =>
               lazymatch x with
               | context [match _ with _ => _ end] => fail
               | _ => destruct x eqn:?
               end
           end; cbn [fst snd st_pv st_msg st_fs st_trace Key LastSignState];
      try assumption.
    all: unfold corrupt; cbn [Signature SignBytes]; intros [_ Hnil];
      match goal with
      | H : Key_Sign _ (ProposalSignBytes _ _) = Ok _ |- _ => apply Hkey in H
      end; contradiction.
Qed.

(** X7. With a signature scheme that never returns a nil signature, a
    validator whose watermark is not corrupt (sign bytes without a signature)
    never makes it so, whatever the calls of [SignVote] and [SignProposal] it
    serves: the panic of [CheckHRS] is out of reach of the validator's own
    writes. *)
Theorem watermark_stays_consistent (n : Node) (reqs : list Request) :
  (forall (sk : crypto_PrivKey) (msg sig : bytes),
      PrivKey_Sign sk msg = inl sig -> sig <> None) ->
  ~ corrupt (LastSignState (node_pv n)) ->
  ~ corrupt (LastSignState (node_pv (serve_all reqs n)))
  /\ forall (h r s : Z) (m : string),
       CheckHRS (LastSignState (node_pv (serve_all reqs n))) h r s <> Panic m.
Proof.
  intros Hsign. revert n.
  assert (Hrun : forall n, ~ corrupt (LastSignState (node_pv n)) ->
                           ~ corrupt (LastSignState (node_pv (serve_all reqs n)))).
  { induction reqs as [| req rest IH]; intros n Hn; cbn [serve_all]; [assumption |].
    pose proof (serve_not_corrupt req n Hsign Hn) as Hn'.
    destruct (serve req n) as [n' [u | e | m | m]]; cbn [fst] in Hn'; auto. }
  intros n Hn. split; [apply Hrun; assumption |].
  intros h r s m Hp. apply (Hrun n Hn).
  revert Hp. unfold corrupt, CheckHRS.
  repeat match goal with
         | |- context [if ?c then _ else _] => destruct c eqn:?
         end; try discriminate.
  intros _.
  destruct (SignBytes (LastSignState (node_pv (serve_all reqs n))));
    destruct (Signature (LastSignState (node_pv (serve_all reqs n))));
    cbn in *; try discriminate.
  split; [discriminate | reflexivity].
Qed.

End Consistency.

(** ** Saving and resetting *)

Section Saving.
Context {SS : SignatureScheme} {OS : FileSystem} {JS : JSONCodec}.

(** X8. [Save] writes the key file and then the state file, each by an atomic
    write of what the codec makes of it. When both writes succeed the call
    returns and the file system is the result of the two writes in this
    order; when the write of the state file fails the call panics with the
    key file already written; when the key cannot be written (no path, or the
    marshalling or the write fails) the call panics with nothing written. The
    validator itself is never changed. *)
Theorem Save_writes_key_then_state {Msg : Type} (st : State Msg) :
  let pv := st_pv st in
  let keyPath := key_filePath (Key pv) in
  let statePath := lss_filePath (LastSignState pv) in
  let out := @FilePV_Save SS OS JS Msg st in
  st_pv (fst out) = pv
  /\ (forall (keyJSON : bytes) (fs1 : FS),
        keyPath <> ""%string ->
        MarshalIndent_Key (Key pv) = inl keyJSON ->
        WriteFileAtomic (st_fs st) keyPath keyJSON = inl fs1 ->
        (forall (stateJSON : bytes) (fs2 : FS),
            statePath <> ""%string ->
            MarshalIndent_LastSignState (LastSignState pv) = inl stateJSON ->
            WriteFileAtomic fs1 statePath stateJSON = inl fs2 ->
            snd out = Ok tt /\ st_fs (fst out) = fs2)
        /\ (forall (stateJSON : bytes) (e : string),
              statePath <> ""%string ->
              MarshalIndent_LastSignState (LastSignState pv) = inl stateJSON ->
              WriteFileAtomic fs1 statePath stateJSON = inr e ->
              snd out = Panic e /\ st_fs (fst out) = fs1))
  /\ (keyPath = ""%string
      \/ (exists e : string, MarshalIndent_Key (Key pv) = inr e)
      \/ (exists (keyJSON : bytes) (e : string),
             MarshalIndent_Key (Key pv) = inl keyJSON
             /\ WriteFileAtomic (st_fs st) keyPath keyJSON = inr e) ->
      (exists m : string, snd out = Panic m) /\ st_fs (fst out) = st_fs st).
Proof.
  cbv zeta.
  unfold FilePV_Save, FilePVKey_Save, LastSignState_Save, bind.
  cbn [fst snd st_pv st_msg st_fs st_trace].
  split; [| split].
  - repeat match goal with
           | |- context [match ?x with _ => _ end] =>
               lazymatch x with
               | context [match _ with _ => _ end] => fail
               | _ => destruct x eqn:?
               end
           end; reflexivity.
  - intros keyJSON fs1 Hkp Hkm Hkw.
    destruct (String.eqb_spec (key_filePath (Key (st_pv st))) "") as [E | _];
      [contradiction |].
    rewrite Hkm, Hkw. cbn [fst snd st_pv st_msg st_fs st_trace].
    split; intros stateJSON x Hsp Hsm Hsw;
      (destruct (String.eqb_spec (lss_filePath (LastSignState (st_pv st))) "")
        as [E | _]; [contradiction |]);
      rewrite Hsm, Hsw; cbn; auto.
  - intros [Hkp | [(e & Hkm) | (keyJSON & e & Hkm & Hkw)]].
    + rewrite Hkp. cbn. split; [eexists; reflexivity | reflexivity].
    + rewrite Hkm. destruct (String.eqb _ _); cbn;
        (split; [eexists; reflexivity | reflexivity]).
    + rewrite Hkm, Hkw. destruct (String.eqb _ _); cbn;
        (split; [eexists; reflexivity | reflexivity]).
Qed.

(** [Reset] leaves the validator with its key and the reset watermark,
    whatever the outcome of the save. *)
Lemma Reset_validator {Msg : Type} (st : State Msg) :
  st_pv (fst (@FilePV_Reset SS OS JS Msg st))
  = mkFilePV (Key (st_pv st)) (reset (LastSignState (st_pv st))).
Proof.
  unfold FilePV_Reset, FilePV_Save, FilePVKey_Save, LastSignState_Save, bind.
  cbn [fst snd st_pv st_msg st_fs st_trace].
  repeat match goal with
         | |- context [match ?x with _ => _ end] =>
             lazymatch x with
             | context [match _ with _ => _ end] => fail
             | _ => destruct x eqn:?
             end
         end; reflexivity.
Qed.

(** X9. [Reset] zeroes the watermark in memory before it saves, so whatever
    the outcome of the save the validator afterwards has the empty watermark
    at the same path and the same key; every request of height and round at
    least 0 and step at least 1 then passes [CheckHRS] as a fresh one, also
    one that was signed before the reset. *)
Theorem Reset_reopens_every_height {Msg : Type} (st : State Msg) :
  let pv' := st_pv (fst (@FilePV_Reset SS OS JS Msg st)) in
  Key pv' = Key (st_pv st)
  /\ LastSignState pv' = emptyLSS (lss_filePath (LastSignState (st_pv st)))
  /\ forall h r s : Z,
       0 <= h -> 0 <= r -> 1 <= s ->
       CheckHRS (LastSignState pv') h r s = Ok false.
Proof.
  cbv zeta.
  rewrite Reset_validator. cbn [Key LastSignState]. repeat split.
  intros h r s Hh Hr Hs. apply CheckHRS_fresh.
  unfold hrs_of, hrs_lt, reset. cbn. lia.
Qed.

End Saving.

(** ** The identity of the validator *)

Section Identity.
Context {SS : SignatureScheme} {PT : ProtoTypes} {CE : CanonicalEncoder}
        {OS : FileSystem} {JS : JSONCodec}.

Lemma serve_all_key (reqs : list Request) :
  forall n : Node, Key (node_pv (serve_all reqs n)) = Key (node_pv n).
Proof.
  induction reqs as [| req rest IH]; intros n; cbn [serve_all]; [reflexivity |].
  assert (Hk : Key (node_pv (fst (serve req n))) = Key (node_pv n)).
  { destruct (serve_effect req n) as (d & _ & Heff).
    inversion Heff; reflexivity. }
  destruct (serve req n) as [n' [u | e | m | m]]; cbn [fst] in Hk;
    rewrite ?IH; assumption.
Qed.

(** X16. The address and the public key that [GetAddress] and [GetPubKey]
    return are those derived from the private key, for a validator made by
    [NewFilePV], for one returned by a load that succeeds, and from then on
    after any calls of [SignVote] and [SignProposal] and after [Reset]. *)
Theorem identity_is_derived_from_private_key :
  (forall (privKey : crypto_PrivKey) (keyFilePath stateFilePath : string),
      key_derived (NewFilePV privKey keyFilePath stateFilePath))
  /\ (forall (fs : FS) (keyFilePath stateFilePath : string) (loadState : bool)
             (pv : FilePV),
        loadFilePV fs keyFilePath stateFilePath loadState = Ok pv -> key_derived pv)
  /\ (forall (n : Node) (reqs : list Request),
        key_derived (node_pv n) -> key_derived (node_pv (serve_all reqs n)))
  /\ (forall (st : State unit),
        key_derived (st_pv st) -> key_derived (st_pv (fst (FilePV_Reset st)))).
Proof.
  unfold key_derived, GetPubKey, GetAddress. repeat split.
  - intros privKey keyFilePath stateFilePath. exists privKey. cbn. auto.
  - intros fs keyFilePath stateFilePath loadState pv. unfold loadFilePV.
    destruct (os_ReadFile fs keyFilePath) as [keyJSONBytes | e]; [| discriminate].
    destruct (Unmarshal_Key keyJSONBytes) as [pvKey | e]; [| discriminate].
    destruct (PrivKey pvKey) as [sk |]; [| discriminate].
    destruct loadState.
    + destruct (os_ReadFile fs stateFilePath) as [b | e]; [| discriminate].
      destruct (Unmarshal_LastSignState b) as [pvState | e]; [| discriminate].
      cbn. intros H. inversion H; subst. exists sk. cbn. auto.
    + cbn. intros H. inversion H; subst. exists sk. cbn. auto.
  - intros n reqs. rewrite serve_all_key. auto.
  - intros st.
    rewrite Reset_validator. cbn [Key]. auto.
Qed.

End Identity.


(** ** Calls one after the other *)

Section Sequences.
Context {SS : SignatureScheme} {PT : ProtoTypes} {CE : CanonicalEncoder}
        {OS : FileSystem} {JS : JSONCodec}.

(** X10. A vote was signed with success, and the vote is put again, with the
    same height, round and type and with sign bytes equal to the stored ones,
    to a validator that holds the watermark the first call left (the same
    validator, or one that read the watermark back from the state file): the
    second call succeeds, puts the signature of the first call in the vote,
    and sets and writes nothing. The stored sign bytes and signature must not
    be nil, the encoder must return the sign bytes of the second vote, and
    the vote-extension block of the second call must pass. When the encoder
    panics on the second vote instead, the second call panics with the same
    value and changes nothing. *)
Theorem resign_returns_same_signature (chainID : string) (signExtension : bool)
    (now : time_Time) (st : State Vote) (step : Z)
    (chainID2 : string) (signExtension2 : bool) (now2 : time_Time)
    (st2 : State Vote) :
  let st1 := fst (signVote chainID signExtension now st) in
  let out2 := signVote chainID2 signExtension2 now2 st2 in
  voteToStep (st_msg st) = Ok step ->
  snd (signVote chainID signExtension now st) = Ok tt ->
  LastSignState (st_pv st2) = LastSignState (st_pv st1) ->
  SignBytes (LastSignState (st_pv st1)) <> None ->
  Signature (LastSignState (st_pv st1)) <> None ->
  voteToStep (st_msg st2) = Ok step ->
  Vote_Height (st_msg st2) = Vote_Height (st_msg st) ->
  Vote_Round (st_msg st2) = Vote_Round (st_msg st) ->
  (VoteSignBytes_panic chainID2 (st_msg st2) = None ->
   bytes_Equal (VoteSignBytes chainID2 (st_msg st2))
     (SignBytes (LastSignState (st_pv st1))) = true ->
   extension_step_ok chainID2 signExtension2 (st_pv st2) (st_msg st2) = true ->
   snd out2 = Ok tt
   /\ Vote_Signature (st_msg (fst out2)) = Vote_Signature (st_msg st1)
   /\ st_pv (fst out2) = st_pv st2
   /\ st_fs (fst out2) = st_fs st2
   /\ st_trace (fst out2)
      = st_trace st2 ++ [EvSetSignature (Vote_Signature (st_msg st1))])
  /\ (forall m : string,
        VoteSignBytes_panic chainID2 (st_msg st2) = Some m ->
        out2 = (st2, Panic m)).
Proof.
  cbv zeta. intros Hstep Hok Hlss Hsb Hsig Hstep2 Hh Hr.
  assert (Hw : hrs_of (LastSignState (st_pv (fst (signVote chainID signExtension now st))))
               = (Vote_Height (st_msg st), Vote_Round (st_msg st), step)
               /\ Signature (LastSignState
                               (st_pv (fst (signVote chainID signExtension now st))))
                  = Vote_Signature (st_msg (fst (signVote chainID signExtension now st)))).
  { destruct (signVote_success chainID signExtension now st step Hstep Hok)
      as [(Hpv & Hchk & Hs) | (Hlt & Hpv)]; rewrite Hpv.
    - apply CheckHRS_reuse in Hchk. destruct Hchk as (Hq & _). auto.
    - cbn [LastSignState]. rewrite hrs_of_signed_lss. auto. }
  destruct Hw as [Hq Hs].
  assert (Hchk2 : CheckHRS (LastSignState (st_pv st2)) (Vote_Height (st_msg st2))
                    (Vote_Round (st_msg st2)) step = Ok true).
  { apply CheckHRS_reuse. rewrite Hlss, Hh, Hr. auto. }
  split.
  - intros Henc Heq Hext.
    destruct (signVote_replay chainID2 signExtension2 now2 st2 step
                Hstep2 Hchk2 Henc Hext)
      as ((Hpv & Hfs) & Hsame & _).
    rewrite Hlss in Hsame. destruct (Hsame Heq) as (R & S & _ & T).
    rewrite Hlss, Hs in *. auto.
  - intros m Henc.
    apply (signVote_encoder_panic chainID2 signExtension2 now2 st2 step true m
             Hstep2 Hchk2 Henc).
Qed.

(** X11. The steps of a height and round go forward only. After a vote was
    signed with success, a proposal for the same height and round is refused
    with a step regression, and after a precommit a prevote for the same
    height and round is refused with a step regression; the refused call
    changes nothing. *)
Theorem steps_go_forward (chainID : string) (signExtension : bool)
    (now : time_Time) (st : State Vote) (step : Z) :
  let pv1 := st_pv (fst (signVote chainID signExtension now st)) in
  let h := Vote_Height (st_msg st) in
  let r := Vote_Round (st_msg st) in
  voteToStep (st_msg st) = Ok step ->
  snd (signVote chainID signExtension now st) = Ok tt ->
  (forall (chainID2 : string) (now2 : time_Time) (st2 : State Proposal),
      st_pv st2 = pv1 ->
      Proposal_Height (st_msg st2) = h ->
      Proposal_Round (st_msg st2) = r ->
      signProposal chainID2 now2 st2
      = (st2, Err (ErrStepRegression h r stepPropose step)))
  /\ (Vote_Type (st_msg st) = PrecommitType ->
      forall (chainID2 : string) (signExtension2 : bool) (now2 : time_Time)
             (st2 : State Vote),
        st_pv st2 = pv1 ->
        Vote_Type (st_msg st2) = PrevoteType ->
        Vote_Height (st_msg st2) = h ->
        Vote_Round (st_msg st2) = r ->
        signVote chainID2 signExtension2 now2 st2
        = (st2, Err (ErrStepRegression h r stepPrevote stepPrecommit))).
Proof.
  cbv zeta. intros Hstep Hok.
  assert (Hq : hrs_of (LastSignState (st_pv (fst (signVote chainID signExtension now st))))
               = (Vote_Height (st_msg st), Vote_Round (st_msg st), step)).
  { destruct (signVote_success chainID signExtension now st step Hstep Hok)
      as [(Hpv & Hchk & Hs) | (Hlt & Hpv)]; rewrite Hpv.
    - apply CheckHRS_reuse in Hchk. destruct Hchk as (Hq & _). auto.
    - cbn [LastSignState]. rewrite hrs_of_signed_lss. auto. }
  unfold hrs_of in Hq. injection Hq as Hh Hr Hs.
  assert (Hrange : step = stepPrevote \/ step = stepPrecommit).
  { unfold voteToStep in Hstep.
    destruct (Vote_Type (st_msg st)); inversion Hstep; auto. }
  split.
  - intros chainID2 now2 st2 Hpv Hph Hpr.
    unfold signProposal, bind, lift, get_msg, get_pv.
    cbn [fst snd st_pv st_msg]. rewrite Hpv, Hph, Hpr.
    unfold CheckHRS. rewrite Hh, Hr, Hs, !Z.gtb_ltb, !Z.ltb_irrefl, !Z.eqb_refl.
    cbn [negb].
    destruct Hrange as [-> | ->]; reflexivity.
  - intros Hpre chainID2 signExtension2 now2 st2 Hpv Hty Hvh Hvr.
    assert (Hstep3 : step = stepPrecommit).
    { unfold voteToStep in Hstep. rewrite Hpre in Hstep. inversion Hstep. reflexivity. }
    rewrite Hstep3 in Hs.
    unfold signVote, bind, lift, get_msg, get_pv, voteToStep.
    cbn [fst snd st_pv st_msg]. rewrite Hty, Hpv, Hvh, Hvr.
    cbn [fst snd st_pv st_msg].
    unfold CheckHRS. rewrite Hh, Hr, Hs, !Z.gtb_ltb, !Z.ltb_irrefl, !Z.eqb_refl.
    reflexivity.
Qed.

End Sequences.

(** ** The retrying signer client *)

Section Retrying.
Context {SS : SignatureScheme}.
Variable World : Type.
Variable time_Sleep : Z -> World -> World.

Lemma retry_loop_decisive {A : Type} (sc_retries sc_timeout : Z) (what : string)
    (op : World -> World * (A + client_error)) (k : nat) :
  forall (w w' w1 : World) (last err : option client_error) (r : A + client_error)
         (i : Z) (calls fuel : nat),
    fails_in_a_row time_Sleep sc_timeout op k w w' last ->
    op w' = (w1, r) ->
    decisive r ->
    0 <= i ->
    i + Z.of_nat k < sc_retries \/ sc_retries = 0 ->
    (k < fuel)%nat ->
    retry_loop time_Sleep fuel sc_retries sc_timeout what op i err calls w
    = Some (mkRetried w1 (S (calls + k)) (returned r)).
Proof.
  induction k as [| k IH]; intros w w' w1 last err r i calls fuel Hf Hop Hd Hi Hb Hfuel.
  - inversion Hf; subst.
    destruct fuel as [| fuel]; [lia |]. cbn [retry_loop].
    assert (Hc : (i <? sc_retries) || (sc_retries =? 0) = true).
    { destruct Hb as [Hb | ->]; [| rewrite orb_true_r; reflexivity].
      apply orb_true_intro. left. apply Z.ltb_lt. lia. }
    rewrite Hc, Hop, Nat.add_0_r.
    destruct r as [a | [m | m]]; cbn in Hd |- *; [reflexivity | reflexivity | contradiction].
  - inversion Hf as [| k0 w0 wa wb m err0 Hop0 Hrest]; subst.
    destruct fuel as [| fuel]; [lia |]. cbn [retry_loop].
    assert (Hc : (i <? sc_retries) || (sc_retries =? 0) = true).
    { destruct Hb as [Hb | ->]; [| rewrite orb_true_r; reflexivity].
      apply orb_true_intro. left. apply Z.ltb_lt. lia. }
    rewrite Hc, Hop0.
    rewrite (IH _ _ _ _ (Some (OtherError m)) r (i + 1) (S calls) fuel Hrest Hop Hd);
      try lia.
    f_equal. f_equal. lia.
Qed.

(** X12. The retrying client returns the first answer that is a value or an
    error of the signer itself, as it came: when the first [k] attempts fail
    with other errors and attempt [k + 1] is within the bound ([k < retries],
    or [retries = 0], which is no bound), the operation makes [k + 1] calls
    and returns the answer of the last one; an error of the signer is never
    retried. *)
Theorem retry_returns_first_decisive_answer {A : Type} (sc : RetrySignerClient World)
    (what : string) (op : World -> World * (A + client_error)) (k fuel : nat)
    (w w' w1 : World) (last : option client_error) (r : A + client_error) :
  fails_in_a_row time_Sleep (timeout sc) op k w w' last ->
  op w' = (w1, r) ->
  decisive r ->
  Z.of_nat k < retries sc \/ retries sc = 0 ->
  (k < fuel)%nat ->
  retry time_Sleep fuel sc what op w = Some (mkRetried w1 (S k) (returned r)).
Proof.
  intros Hf Hop Hd Hb Hfuel. unfold retry.
  rewrite (retry_loop_decisive (retries sc) (timeout sc) what op k
             w w' w1 last None r 0 O fuel Hf Hop Hd); try lia.
  reflexivity.
Qed.

Lemma retry_loop_exhausted {A : Type} (sc_retries sc_timeout : Z) (what : string)
    (op : World -> World * (A + client_error)) (k : nat) :
  forall (w w' : World) (last err : option client_error) (i : Z) (calls fuel : nat),
    fails_in_a_row time_Sleep sc_timeout op k w w' last ->
    0 <= i ->
    0 < sc_retries ->
    i + Z.of_nat k = sc_retries ->
    (k <= fuel)%nat ->
    retry_loop time_Sleep fuel sc_retries sc_timeout what op i err calls w
    = Some (mkRetried w' (calls + k)
              (inr (ErrExhausted what
                      (match last with
                       | Some e => Some e
                       | None => err
                       end)))).
Proof.
  induction k as [| k IH]; intros w w' last err i calls fuel Hf Hi Hpos Hb Hfuel.
  - assert (Hge : sc_retries <= i) by lia. clear Hb.
    inversion Hf; subst.
    assert (Hc : (i <? sc_retries) || (sc_retries =? 0) = false).
    { apply orb_false_intro; [apply Z.ltb_ge; lia | apply Z.eqb_neq; lia]. }
    destruct fuel; cbn [retry_loop]; rewrite Hc, Nat.add_0_r; reflexivity.
  - assert (Hlt : i < sc_retries) by lia.
    assert (Hnext : i + 1 + Z.of_nat k = sc_retries) by lia. clear Hb.
    inversion Hf as [| k0 w0 wa wb m err0 Hop0 Hrest]; subst k0 w0 wb last.
    destruct fuel as [| fuel]; [lia |]. cbn [retry_loop].
    assert (Hc : (i <? sc_retries) || (sc_retries =? 0) = true).
    { apply orb_true_intro. left. apply Z.ltb_lt. lia. }
    rewrite Hc, Hop0.
    rewrite (IH _ _ _ (Some (OtherError m)) (i + 1) (S calls) fuel Hrest); try lia.
    f_equal. f_equal; [lia |]. destruct err0; reflexivity.
Qed.

(** X13. With [retries > 0], when [retries] attempts in a row fail with errors
    that are not the signer's own, the operation gives up after exactly
    [retries] calls, each followed by the sleep, and returns the "exhausted
    all attempts" error that wraps the error of the last attempt; [retries]
    units of fuel are enough for the loop to end. *)
Theorem retry_gives_up_after_retries {A : Type} (sc : RetrySignerClient World)
    (what : string) (op : World -> World * (A + client_error)) (fuel : nat)
    (w w' : World) (last : option client_error) :
  0 < retries sc ->
  fails_in_a_row time_Sleep (timeout sc) op (Z.to_nat (retries sc)) w w' last ->
  (Z.to_nat (retries sc) <= fuel)%nat ->
  retry time_Sleep fuel sc what op w
  = Some (mkRetried w' (Z.to_nat (retries sc)) (inr (ErrExhausted what last)))
  /\ last <> None.
Proof.
  intros Hpos Hf Hfuel. unfold retry.
  rewrite (retry_loop_exhausted (retries sc) (timeout sc) what op
             (Z.to_nat (retries sc)) w w' last None 0 O fuel Hf); try lia.
  split.
  - cbn. destruct last; reflexivity.
  - inversion Hf as [| k0 w0 wa wb m err0 Hop0 Hrest Hk]; subst.
    + lia.
    + destruct err0; discriminate.
Qed.

(** X14. With [retries < 0] the loop is not entered: no call is made to the
    wrapped client, no sleep happens, and the operation returns the
    "exhausted all attempts" error wrapping a nil error. *)
Theorem retry_negative_makes_no_attempt {A : Type} (sc : RetrySignerClient World)
    (what : string) (op : World -> World * (A + client_error)) (fuel : nat)
    (w : World) :
  retries sc < 0 ->
  retry time_Sleep fuel sc what op w
  = Some (mkRetried w O (inr (ErrExhausted what None))).
Proof.
  intros Hneg. unfold retry.
  assert (Hc : (0 <? retries sc) || (retries sc =? 0) = false).
  { apply orb_false_intro; [apply Z.ltb_ge; lia | apply Z.eqb_neq; lia]. }
  destruct fuel; cbn [retry_loop]; rewrite Hc; reflexivity.
Qed.

Lemma retry_loop_calls {A : Type} (sc_retries sc_timeout : Z) (what : string)
    (op : World -> World * (A + client_error)) (fuel : nat) :
  forall (i : Z) (err : option client_error) (calls : nat) (w : World)
         (out : Retried World A),
    retry_loop time_Sleep fuel sc_retries sc_timeout what op i err calls w = Some out ->
    0 <= i ->
    (0 < sc_retries ->
     Z.of_nat (r_calls out) - Z.of_nat calls <= Z.max 0 (sc_retries - i))
    /\ (sc_retries = 0 ->
        forall last : option client_error, r_result out <> inr (ErrExhausted what last)).
Proof.
  induction fuel as [| fuel IH]; intros i err calls w out; cbn [retry_loop].
  - destruct ((i <? sc_retries) || (sc_retries =? 0)) eqn:Hc; [discriminate |].
    intros H Hi. inversion H; subst. cbn [r_calls r_result].
    apply orb_false_elim in Hc. destruct Hc as [Hc1 Hc2].
    apply Z.eqb_neq in Hc2. split; [lia | intros; contradiction].
  - destruct ((i <? sc_retries) || (sc_retries =? 0)) eqn:Hc.
    + destruct (op w) as [w1 [a | [m | m]]].
      * intros H Hi. inversion H; subst. cbn [r_calls r_result].
        split; [| intros; discriminate].
        intros Hpos. apply orb_true_elim in Hc.
        destruct Hc as [Hc | Hc]; [apply Z.ltb_lt in Hc | apply Z.eqb_eq in Hc]; lia.
      * intros H Hi. inversion H; subst. cbn [r_calls r_result].
        split; [| intros; discriminate].
        intros Hpos. apply orb_true_elim in Hc.
        destruct Hc as [Hc | Hc]; [apply Z.ltb_lt in Hc | apply Z.eqb_eq in Hc]; lia.
      * intros H Hi. destruct (IH _ _ _ _ _ H) as [Hb Hz]; [lia |].
        split; [| assumption].
        intros Hpos. specialize (Hb Hpos).
        apply orb_true_elim in Hc.
        destruct Hc as [Hc | Hc]; [apply Z.ltb_lt in Hc | apply Z.eqb_eq in Hc]; lia.
    + intros H Hi. inversion H; subst. cbn [r_calls r_result].
      apply orb_false_elim in Hc. destruct Hc as [Hc1 Hc2].
      apply Z.eqb_neq in Hc2. split; [lia | intros; contradiction].
Qed.

(** X15. Whatever the wrapped client answers, a retried operation that ends
    has made at most [retries] calls when [retries > 0], and has not given up
    when [retries = 0]: with no bound the "exhausted all attempts" error is
    never returned. *)
Theorem retry_bound {A : Type} (sc : RetrySignerClient World) (what : string)
    (op : World -> World * (A + client_error)) (fuel : nat) (w : World)
    (out : Retried World A) :
  retry time_Sleep fuel sc what op w = Some out ->
  (0 < retries sc -> Z.of_nat (r_calls out) <= retries sc)
  /\ (retries sc = 0 ->
      forall last : option client_error,
        r_result out <> inr (ErrExhausted what last)).
Proof.
  unfold retry. intros H.
  destruct (retry_loop_calls (retries sc) (timeout sc) what op fuel 0 None O w out H)
    as [Hb Hz]; [lia |].
  split; [| assumption].
  intros Hpos. specialize (Hb Hpos). lia.
Qed.

End Retrying.


(** ** The state file *)

Section Restart.
Context {SS : SignatureScheme} {PT : ProtoTypes} {CE : CanonicalEncoder}
        {OS : FileSystem} {JS : JSONCodec}.

Ltac unfold_sign :=
  unfold SignVote, SignProposal, wrap_error, signVote, signProposal, saveSigned,
    types_VoteSignBytes, types_ProposalSignBytes,
    LastSignState_Save, bind, lift, ret, get_msg, get_pv, modify_msg, emit in *;
  cbn [fst snd st_pv st_msg st_fs st_trace Key LastSignState lss_filePath] in *.

Ltac split_next :=
  match goal with
  | |- context [match ?x with _ => _ end] =>
      lazymatch x with
      | context [match _ with _ => _ end] => fail
      | _ => destruct x eqn:?
      end
  end; cbn [fst snd st_pv st_msg st_fs st_trace Key LastSignState lss_filePath] in *.

Ltac settle_store :=
  first [ left; split; reflexivity
        | right; left; eexists; reflexivity
        | right; right; eexists; repeat split; eassumption ].

Lemma SignVote_store (chainID : string) (signExtension : bool) (now : time_Time)
    (st : State Vote) :
  store_effect st (SignVote chainID signExtension now st).
Proof.
  unfold store_effect. unfold_sign. repeat split_next; settle_store.
Qed.

Lemma SignProposal_store (chainID : string) (now : time_Time) (st : State Proposal) :
  store_effect st (SignProposal chainID now st).
Proof.
  unfold store_effect. unfold_sign. repeat split_next; settle_store.
Qed.

Lemma lss_eta (l : FilePVLastSignState) :
  mkLSS (Height l) (Round l) (Step l) (Signature l) (SignBytes l) (lss_filePath l) = l.
Proof. destruct l; reflexivity. Qed.

(** X17. The state file follows the watermark. With a file system in which a
    file that was written reads back as written and the other files as
    before, a key file apart from the state file, and a codec that reads back
    the watermark of the validator from what it writes for it: when the files
    of the validator load to its watermark before a call of [SignVote] or
    [SignProposal], they do so after the call, unless it panicked. A
    validator started again from its files holds the watermark of every
    signature that was handed out. *)
Theorem state_file_follows_watermark (req : Request) (n : Node) :
  read_after_write ->
  key_filePath (Key (node_pv n)) <> lss_filePath (LastSignState (node_pv n)) ->
  reads_back (LastSignState (node_pv (fst (serve req n)))) ->
  (forall m : string, snd (serve req n) <> Panic m) ->
  on_disk n ->
  on_disk (fst (serve req n)).
Proof.
  intros Hfs Hpaths Hcodec Hnopanic Hdisk.
  assert (Heff : (node_pv (fst (serve req n)) = node_pv n
                  /\ node_fs (fst (serve req n)) = node_fs n)
                 \/ (exists jsonBytes : bytes,
                        MarshalIndent_LastSignState
                          (LastSignState (node_pv (fst (serve req n)))) = inl jsonBytes
                        /\ WriteFileAtomic (node_fs n)
                             (lss_filePath (LastSignState (node_pv n))) jsonBytes
                           = inl (node_fs (fst (serve req n)))
                        /\ Key (node_pv (fst (serve req n))) = Key (node_pv n)
                        /\ lss_filePath (LastSignState (node_pv (fst (serve req n))))
                           = lss_filePath (LastSignState (node_pv n)))).
  { destruct req as [chainID vote signExtension now | chainID proposal now].
    - destruct (SignVote_store chainID signExtension now
                  (mkState (node_pv n) vote (node_fs n) (node_trace n)))
        as [H | [(m & H) | H]]; [left; exact H | | right; exact H].
      exfalso. apply (Hnopanic m). exact H.
    - destruct (SignProposal_store chainID now
                  (mkState (node_pv n) proposal (node_fs n) (node_trace n)))
        as [H | [(m & H) | H]]; [left; exact H | | right; exact H].
      exfalso. apply (Hnopanic m). exact H. }
  destruct Heff as [[Hpv Hfsame] | (jsonBytes & Hm & Hw & Hkey & Hpath)].
  - unfold on_disk. rewrite Hpv, Hfsame. exact Hdisk.
  - destruct (Hfs _ _ _ _ Hw) as [Hread Hother].
    destruct (Hcodec jsonBytes Hm) as (lss' & Hun & Hh & Hr & Hs & Hsig & Hsb).
    destruct Hdisk as (pv0 & Hload & _).
    unfold on_disk, LoadFilePV, loadFilePV in *.
    rewrite Hkey, Hpath, Hread, Hun, (Hother _ Hpaths).
    destruct (os_ReadFile (node_fs n) (key_filePath (Key (node_pv n))))
      as [keyJSONBytes | e]; [| discriminate].
    destruct (Unmarshal_Key keyJSONBytes) as [pvKey | e]; [| discriminate].
    destruct (PrivKey pvKey) as [sk |]; [| discriminate].
    cbn [result_bind]. eexists. split; [reflexivity |].
    cbn [LastSignState]. rewrite Hh, Hr, Hs, Hsig, Hsb, <- Hpath. apply lss_eta.
Qed.

End Restart.

(** ** Generating the validator *)

Section Generating.
Context {SS : SignatureScheme} {OS : FileSystem} {JS : JSONCodec}.
Variable FileExists : FS -> string -> bool.
Variable ed25519_GenPrivKey : crypto_PrivKey.

(** X18. [LoadOrGenFilePV] generates once. With a file system in which a file
    that was written reads back as written and the other files as before and
    a file that reads exists, a key file apart from the state file, and a
    codec that reads back the private key and the empty watermark from what
    it writes for them: when there is no key file and [LoadOrGenFilePV]
    returns a validator, the validator is made, with the empty watermark, of
    the key the generator of the caller returned, or of the key of
    [ed25519.GenPrivKey] when the caller gave no generator; and any later
    call on the files it left returns the same validator, writes nothing, and
    does not depend on the generator. *)
Theorem generated_validator_loads_again (fs fs' : FS)
    (keyFilePath stateFilePath : string)
    (keyGenF : option (option crypto_PrivKey + string)) (pv : FilePV) :
  read_after_write ->
  exists_when_read FileExists ->
  keyFilePath <> stateFilePath ->
  FileExists fs keyFilePath = false ->
  LoadOrGenFilePV FileExists ed25519_GenPrivKey fs keyFilePath stateFilePath keyGenF
  = (fs', Ok pv) ->
  key_reads_back (Key pv) ->
  reads_back (LastSignState pv) ->
  (exists key : crypto_PrivKey,
      match keyGenF with
      | Some generated => generated = inl (Some key)
      | None => key = ed25519_GenPrivKey
      end
      /\ pv = NewFilePV key keyFilePath stateFilePath)
  /\ forall keyGenF' : option (option crypto_PrivKey + string),
       LoadOrGenFilePV FileExists ed25519_GenPrivKey fs' keyFilePath stateFilePath
         keyGenF'
       = (fs', Ok pv).
Proof.
  intros Hfs Hex Hpaths Hnone Hgen Hkey Hstate.
  unfold LoadOrGenFilePV in Hgen. rewrite Hnone in Hgen.
  assert (Hnew : exists key : crypto_PrivKey,
             match keyGenF with
             | Some generated => generated = inl (Some key)
             | None => key = ed25519_GenPrivKey
             end
             /\ GenFilePV ed25519_GenPrivKey keyFilePath stateFilePath keyGenF
                = Ok (NewFilePV key keyFilePath stateFilePath)).
  { unfold GenFilePV in *.
    destruct keyGenF as [[[key |] | e] |]; try discriminate.
    - exists key. split; reflexivity.
    - exists ed25519_GenPrivKey. split; reflexivity. }
  destruct Hnew as (key & Hkeygen & Hnew). rewrite Hnew in Hgen.
  unfold FilePV_Save, FilePVKey_Save, LastSignState_Save, bind, NewFilePV in Hgen.
  cbn [fst snd st_pv st_msg st_fs st_trace Key LastSignState key_filePath
         lss_filePath] in Hgen.
  destruct (String.eqb keyFilePath "") eqn:Ek; [discriminate |].
  destruct (MarshalIndent_Key
              (mkKey (PubKey_Address (PrivKey_PubKey key))
                 (Some (PrivKey_PubKey key)) (Some key) keyFilePath))
    as [keyJSON | e] eqn:Emk; [| discriminate].
  destruct (WriteFileAtomic fs keyFilePath keyJSON) as [fs1 | e] eqn:Ewk;
    [| discriminate].
  cbn [fst snd st_pv st_msg st_fs st_trace Key LastSignState key_filePath
         lss_filePath] in Hgen.
  destruct (String.eqb stateFilePath "") eqn:Es; [discriminate |].
  destruct (MarshalIndent_LastSignState (mkLSS 0 0 stepNone None None stateFilePath))
    as [stateJSON | e] eqn:Ems; [| discriminate].
  destruct (WriteFileAtomic fs1 stateFilePath stateJSON) as [fs2 | e] eqn:Ews;
    [| discriminate].
  cbn [fst snd st_pv st_msg st_fs st_trace result_bind] in Hgen.
  injection Hgen as Hfs2 Hpv. subst fs2 pv.
  split; [exists key; split; [exact Hkeygen | reflexivity] |].
  intros keyGenF'.
  destruct (Hfs _ _ _ _ Ewk) as [Hrk _].
  destruct (Hfs _ _ _ _ Ews) as [Hrs Hother].
  assert (Hrk' : os_ReadFile fs' keyFilePath = inl keyJSON).
  { rewrite (Hother keyFilePath Hpaths). exact Hrk. }
  destruct (Hkey keyJSON Emk) as (pvKey' & Hun & Hpriv).
  destruct (Hstate stateJSON Ems) as (lss' & Huns & Hh & Hr & Hs & Hsig & Hsb).
  unfold LoadOrGenFilePV. rewrite (Hex _ _ _ Hrk').
  unfold LoadFilePV, loadFilePV. rewrite Hrk', Hun, Hpriv, Hrs, Huns.
  cbn [PrivKey result_bind]. rewrite Hh, Hr, Hs, Hsig, Hsb. reflexivity.
Qed.

End Generating.

(** * The properties at concrete inputs *)

Section Examples.
Local Existing Instance Toy.scheme.
Local Existing Instance Toy.proto.
Local Existing Instance Toy.encoder.
Local Existing Instance Toy.filesystem.
Local Existing Instance Toy.codec.

(** C1 as stated does not hold. The prevote already signed, put again with an
    extension attached and [signExtension] set: the triple is the watermark,
    [CheckHRS] answers "reuse" and the sign bytes equal the stored ones, yet
    the call fails with [ErrUnexpectedVoteExtension] and the stored signature
    is not put in the vote. And with stored sign bytes that do not decode, a
    request at the watermark whose sign bytes differ ends in a panic, not in
    [ErrConflictingData]. *)
Lemma replay_resolver_counterexample :
  (CheckHRS (LastSignState (st_pv Toy.st_prevote_extended)) 10 0 stepPrevote = Ok true
   /\ bytes_Equal (VoteSignBytes "chain" (st_msg Toy.st_prevote_extended))
        (SignBytes (LastSignState (st_pv Toy.st_prevote_extended))) = true
   /\ snd (signVote "chain" true 0 Toy.st_prevote_extended)
      = Err ErrUnexpectedVoteExtension
   /\ Vote_Signature (st_msg (fst (signVote "chain" true 0 Toy.st_prevote_extended)))
      = None
   /\ Signature (LastSignState (st_pv Toy.st_prevote_extended)) <> None)
  /\ (CheckHRS (LastSignState (st_pv Toy.st_garbled)) 10 0 stepPrevote = Ok true
      /\ bytes_Equal (VoteSignBytes "chain" (st_msg Toy.st_garbled))
           (SignBytes (LastSignState (st_pv Toy.st_garbled))) = false
      /\ snd (signVote "chain" false 0 Toy.st_garbled)
         = Panic "LastSignBytes cannot be unmarshalled into vote: malformed header").
Proof.
  repeat split; try (vm_compute; reflexivity).
  vm_compute. discriminate.
Qed.

(** The resolver on the precommit put again with a later timestamp: the call
    succeeds, the vote carries the stored signature and the timestamp 100 of
    the precommit signed before, and nothing is written. *)
Lemma replay_resolver_witness :
  snd (signVote "chain" true 7 Toy.st_replay_later) = Ok tt
  /\ Vote_Timestamp (st_msg (fst (signVote "chain" true 7 Toy.st_replay_later))) = 100
  /\ Vote_Signature (st_msg (fst (signVote "chain" true 7 Toy.st_replay_later)))
     = Signature (LastSignState (st_pv Toy.st_replay_later))
  /\ st_trace (fst (signVote "chain" true 7 Toy.st_replay_later))
     = st_trace Toy.st_replay_later
       ++ [EvSetSignature (Signature (LastSignState (st_pv Toy.st_replay_later)))].
Proof.
  destruct (proj1 (@replay_resolver
                     Toy.scheme Toy.proto Toy.encoder Toy.filesystem Toy.codec
                     "chain" 7)
              true Toy.st_replay_later stepPrecommit)
    as (_ & _ & Hdiff & _); try (vm_compute; reflexivity).
  destruct (Hdiff ltac:(vm_compute; reflexivity)
              (Toy.canonical_of_vote "chain" Toy.precommit)
              (Toy.canonical_of_vote "chain" (st_msg Toy.st_replay_later))
              ltac:(vm_compute; reflexivity) ltac:(vm_compute; reflexivity))
    as [Hsame _].
  apply Hsame. vm_compute; reflexivity.
Defined.

(** [CheckHRS], one request for each row of its table. *)
Lemma CheckHRS_table_witness :
  CheckHRS Toy.lss_signed 9 0 2 = Err (ErrHeightRegression 9 10)
  /\ CheckHRS Toy.lss_round1 10 0 3 = Err (ErrRoundRegression 10 0 1)
  /\ CheckHRS Toy.lss_signed 10 0 2 = Err (ErrStepRegression 10 0 2 3)
  /\ CheckHRS Toy.lss_signed 10 1 1 = Ok false
  /\ CheckHRS Toy.lss_unsigned 10 0 3 = Err ErrNoSignBytes
  /\ CheckHRS Toy.lss_corrupt 10 0 3
     = Panic "pv: Signature is nil but SignBytes is not!"
  /\ CheckHRS Toy.lss_signed 10 0 3 = Ok true.
Proof.
  pose proof (CheckHRS_table Toy.lss_signed 9 0 2) as (H1 & _).
  pose proof (CheckHRS_table Toy.lss_round1 10 0 3) as (_ & H2 & _).
  pose proof (CheckHRS_table Toy.lss_signed 10 0 2) as (_ & _ & H3 & _).
  pose proof (CheckHRS_table Toy.lss_signed 10 1 1) as (_ & _ & _ & H4 & _).
  pose proof (CheckHRS_table Toy.lss_unsigned 10 0 3) as (_ & _ & _ & _ & H5 & _).
  pose proof (CheckHRS_table Toy.lss_corrupt 10 0 3)
    as (_ & _ & _ & _ & _ & H6 & _).
  pose proof (CheckHRS_table Toy.lss_signed 10 0 3)
    as (_ & _ & _ & _ & _ & _ & H7).
  split; [apply H1; cbn; lia |].
  split; [apply H2; cbn; [reflexivity | lia] |].
  split; [apply H3; cbn; [reflexivity | reflexivity | lia] |].
  split; [apply H4; cbn; lia |].
  split; [apply H5; reflexivity |].
  split; [apply H6; cbn; [reflexivity | discriminate | reflexivity] |].
  apply H7; cbn; [reflexivity | discriminate | discriminate].
Defined.

(** C4 as stated does not hold. With the watermark at height 10, a precommit
    for a block at height 9 put with an extension and [signExtension] set is
    refused for its height: no extension signature is put in the vote. A
    prevote at height 9 with an extension is refused for its height as well,
    not for its extension. And a precommit at height 11, which [CheckHRS]
    lets through, for a block id on which the encoder panics: the call
    panics, and no extension signature is put in the vote. *)
Lemma vote_extension_signing_counterexample :
  (nonnil_precommit (st_msg Toy.st_regress_precommit)
   /\ snd (signVote "chain" true 0 Toy.st_regress_precommit)
      = Err (ErrHeightRegression 9 10)
   /\ Vote_ExtensionSignature
        (st_msg (fst (signVote "chain" true 0 Toy.st_regress_precommit))) = None
   /\ Vote_NonRpExtensionSignature
        (st_msg (fst (signVote "chain" true 0 Toy.st_regress_precommit))) = None)
  /\ (Vote_Type (st_msg Toy.st_regress_prevote) = PrevoteType
      /\ len (Vote_Extension (st_msg Toy.st_regress_prevote)) > 0
      /\ snd (signVote "chain" true 0 Toy.st_regress_prevote)
         = Err (ErrHeightRegression 9 10))
  /\ (nonnil_precommit (st_msg Toy.st_malformed)
      /\ CheckHRS (LastSignState (st_pv Toy.st_malformed)) 11 0 stepPrecommit
         = Ok false
      /\ snd (signVote "chain" true 0 Toy.st_malformed) = Panic "wrong Hash"
      /\ Vote_ExtensionSignature
           (st_msg (fst (signVote "chain" true 0 Toy.st_malformed))) = None
      /\ Vote_NonRpExtensionSignature
           (st_msg (fst (signVote "chain" true 0 Toy.st_malformed))) = None).
Proof.
  unfold nonnil_precommit. repeat split; vm_compute; reflexivity.
Qed.

(** The vote-extension block on a precommit for another block at the
    watermark: both extension signatures in the vote are the key followed by
    the extension sign bytes, which is how this scheme signs. And the
    precommit for the block id on which the encoder panics: the call panics
    and the vote is as it was. *)
Lemma vote_extension_signing_witness :
  (Vote_ExtensionSignature (st_msg (fst (signVote "chain" true 7 Toy.st_conflict)))
   = Some (Toy.key
             ++ contents (fst (VoteExtensionSignBytes "chain" (st_msg Toy.st_conflict))))
   /\ Vote_NonRpExtensionSignature
        (st_msg (fst (signVote "chain" true 7 Toy.st_conflict)))
      = Some (Toy.key
                ++ contents (snd (VoteExtensionSignBytes "chain"
                                    (st_msg Toy.st_conflict)))))
  /\ signVote "chain" true 7 Toy.st_malformed = (Toy.st_malformed, Panic "wrong Hash").
Proof.
  split.
  - destruct (@vote_extension_signing
                Toy.scheme Toy.proto Toy.encoder Toy.filesystem Toy.codec
                "chain" 7 Toy.st_conflict stepPrecommit true
                ltac:(vm_compute; reflexivity) ltac:(vm_compute; reflexivity))
      as [Hret _].
    destruct (Hret ltac:(vm_compute; reflexivity)) as (Hpre & _).
    apply Hpre.
    + split; vm_compute; reflexivity.
    + exists Toy.key. split; vm_compute; reflexivity.
    + exists Toy.key. split; vm_compute; reflexivity.
  - apply (proj2 (@vote_extension_signing
                    Toy.scheme Toy.proto Toy.encoder Toy.filesystem Toy.codec
                    "chain" 7 Toy.st_malformed stepPrecommit false
                    ltac:(vm_compute; reflexivity) ltac:(vm_compute; reflexivity))).
    vm_compute; reflexivity.
Defined.

(** The precommit put again with a later timestamp and another extension:
    the signature is the stored one, and the extension signatures are what
    the key of the validator signs in this call for the extension sign bytes
    of the vote; the stored signature is not among them. *)
Lemma reuse_resigns_extensions_witness :
  Vote_Signature (st_msg (fst (signVote "chain" true 7 Toy.st_replay_later)))
  = Signature (LastSignState (st_pv Toy.st_replay_later))
  /\ same_store Toy.st_replay_later (fst (signVote "chain" true 7 Toy.st_replay_later))
  /\ PrivKey (Key (st_pv Toy.st_replay_later)) = Some Toy.key
  /\ PrivKey_Sign Toy.key
       (fst (VoteExtensionSignBytes "chain" (st_msg Toy.st_replay_later)))
     = inl (Vote_ExtensionSignature
              (st_msg (fst (signVote "chain" true 7 Toy.st_replay_later))))
  /\ PrivKey_Sign Toy.key
       (snd (VoteExtensionSignBytes "chain" (st_msg Toy.st_replay_later)))
     = inl (Vote_NonRpExtensionSignature
              (st_msg (fst (signVote "chain" true 7 Toy.st_replay_later))))
  /\ Vote_ExtensionSignature
       (st_msg (fst (signVote "chain" true 7 Toy.st_replay_later)))
     <> Signature (LastSignState (st_pv Toy.st_replay_later)).
Proof.
  destruct (@reuse_resigns_extensions
              Toy.scheme Toy.proto Toy.encoder Toy.filesystem Toy.codec
              "chain" 7 Toy.st_replay_later
              ltac:(vm_compute; reflexivity) ltac:(vm_compute; reflexivity)
              ltac:(split; vm_compute; reflexivity))
    as (Hsig & Hstore & (sk1 & Hk1 & Hs1) & (sk2 & Hk2 & Hs2)).
  assert (E1 : sk1 = Toy.key) by (vm_compute in Hk1; inversion Hk1; reflexivity).
  assert (E2 : sk2 = Toy.key) by (vm_compute in Hk2; inversion Hk2; reflexivity).
  subst sk1 sk2.
  repeat split; try assumption; try apply Hstore.
  vm_compute. discriminate.
Defined.

(** The precommit for another block at the watermark is refused, and the
    validator is as it was. *)
Lemma error_leaves_watermark_witness :
  snd (signVote "chain" true 7 Toy.st_conflict) = Err ErrConflictingData
  /\ LastSignState (st_pv (fst (signVote "chain" true 7 Toy.st_conflict)))
     = LastSignState (st_pv Toy.st_conflict)
  /\ st_fs (fst (signVote "chain" true 7 Toy.st_conflict)) = st_fs Toy.st_conflict
  /\ st_trace (fst (signVote "chain" true 7 Toy.st_conflict))
     = st_trace Toy.st_conflict.
Proof.
  split; [vm_compute; reflexivity |].
  apply (proj1 (@error_leaves_watermark
              Toy.scheme Toy.proto Toy.encoder Toy.filesystem Toy.codec
              "chain" 7 ErrConflictingData) true Toy.st_conflict).
  vm_compute; reflexivity.
Defined.

(** The precommit signed afresh after the prevote: the call succeeds and the
    signature is in the vote; with a state file that cannot be written the
    call panics and the vote has no signature. *)
Lemma persistence_precedes_signature_witness :
  (snd (signVote "chain" true 0 Toy.st_fresh_precommit) = Ok tt
   /\ exists (sig : bytes) (lss' : FilePVLastSignState),
        st_trace (fst (signVote "chain" true 0 Toy.st_fresh_precommit))
        = st_trace Toy.st_fresh_precommit
          ++ [EvSaveSigned (10, 0, 3)
                (VoteSignBytes "chain" (st_msg Toy.st_fresh_precommit)) sig;
              EvPersist lss'; EvSetSignature sig]
        /\ Signature lss' = sig)
  /\ (exists m : string, snd (signVote "chain" true 0 Toy.st_readonly) = Panic m)
  /\ Vote_Signature (st_msg (fst (signVote "chain" true 0 Toy.st_readonly))) = None.
Proof.
  destruct (proj1 (@persistence_precedes_signature
              Toy.scheme Toy.proto Toy.encoder Toy.filesystem Toy.codec
              "chain" 0) true
              Toy.st_fresh_precommit stepPrecommit
              (Some (Toy.key
                       ++ contents (VoteSignBytes "chain" (st_msg Toy.st_fresh_precommit))))
              ltac:(vm_compute; reflexivity) ltac:(vm_compute; reflexivity)
              ltac:(vm_compute; reflexivity) ltac:(vm_compute; reflexivity)
              ltac:(vm_compute; reflexivity))
    as [Hok _].
  destruct (proj1 (@persistence_precedes_signature
              Toy.scheme Toy.proto Toy.encoder Toy.filesystem Toy.codec
              "chain" 0) true
              Toy.st_readonly stepPrecommit
              (Some (Toy.key
                       ++ contents (VoteSignBytes "chain" (st_msg Toy.st_readonly))))
              ltac:(vm_compute; reflexivity) ltac:(vm_compute; reflexivity)
              ltac:(vm_compute; reflexivity) ltac:(vm_compute; reflexivity)
              ltac:(vm_compute; reflexivity))
    as [_ Hpanic].
  split; [| split].
  - edestruct Hok as (R & T & _ & _ & _);
      [ vm_compute; discriminate | vm_compute; reflexivity | vm_compute; reflexivity |].
    split; [exact R |]. eexists. eexists. split; [exact T |]. reflexivity.
  - apply Hpanic. right. right. eexists. eexists.
    split; vm_compute; reflexivity.
  - edestruct Hpanic as (_ & _ & _ & S).
    + right. right. eexists. eexists. split; vm_compute; reflexivity.
    + rewrite S. reflexivity.
Defined.

(** C8 as stated does not hold. The key file is there and well formed, the
    state file is not, and the load with [loadState] set ends the process. *)
Lemma load_without_state_file_counterexample :
  os_ReadFile Toy.fs_key_only "/pv/key.json" = inl Toy.key_json
  /\ (exists pvKey : FilePVKey,
        Unmarshal_Key Toy.key_json = inl pvKey /\ PrivKey pvKey = Some Toy.key)
  /\ os_ReadFile Toy.fs_key_only "/pv/state.json"
     = inr "open /pv/state.json: no such file or directory"
  /\ loadFilePV Toy.fs_key_only "/pv/key.json" "/pv/state.json" true
     = Exit "open /pv/state.json: no such file or directory".
Proof.
  repeat split; try (vm_compute; reflexivity).
  eexists. split; vm_compute; reflexivity.
Qed.

(** The two loads of a file system that holds the key file only. *)
Lemma load_without_state_file_witness :
  loadFilePV Toy.fs_key_only "/pv/key.json" "/pv/state.json" true
  = Exit "open /pv/state.json: no such file or directory"
  /\ exists pv : FilePV,
       loadFilePV Toy.fs_key_only "/pv/key.json" "/pv/state.json" false = Ok pv
       /\ LastSignState pv = emptyLSS "/pv/state.json".
Proof.
  destruct (@load_without_state_file Toy.scheme Toy.filesystem Toy.codec
              Toy.fs_key_only "/pv/key.json" "/pv/state.json"
              Toy.key_json Toy.key_parsed Toy.key
              ltac:(vm_compute; reflexivity) ltac:(vm_compute; reflexivity)
              ltac:(vm_compute; reflexivity))
    as [Hexit Hempty].
  split; [| exact Hempty].
  apply Hexit. vm_compute; reflexivity.
Defined.

(** The key file holds the address [ee] and the public key [dd cc]; the
    validator loaded from it has the public key and the address derived from
    its private key. *)
Lemma load_rederives_identity_witness :
  exists pv : FilePV,
    loadFilePV Toy.fs_key_only "/pv/key.json" "/pv/state.json" false = Ok pv
    /\ PrivKey (Key pv) = Some Toy.key
    /\ PubKey (Key pv) = Some (PrivKey_PubKey Toy.key)
    /\ Address (Key pv) = PubKey_Address (PrivKey_PubKey Toy.key)
    /\ Address (Key pv) <> Some [xee].
Proof.
  destruct (loadFilePV Toy.fs_key_only "/pv/key.json" "/pv/state.json" false)
    as [pv | e | m | m] eqn:Hload; try (vm_compute in Hload; discriminate).
  destruct (@load_rederives_identity Toy.scheme Toy.filesystem Toy.codec
              Toy.fs_key_only "/pv/key.json" "/pv/state.json"
              false pv Hload)
    as (keyJSONBytes & pvKey & sk & Hr & Hu & Hk & Hsk & Hpk & Haddr).
  assert (Hkey : sk = Toy.key).
  { vm_compute in Hr. inversion Hr; subst keyJSONBytes.
    vm_compute in Hu. inversion Hu; subst pvKey.
    vm_compute in Hk. inversion Hk. reflexivity. }
  subst sk. exists pv. repeat split; try assumption.
  rewrite Haddr. vm_compute. discriminate.
Defined.

(** The precommit for another block at the watermark is refused by the
    resolver; the vote came without extension signatures and leaves with the
    two the key of the validator signs, and still without a signature. And
    the prevote put to the validator whose stored sign bytes do not decode:
    the resolver panics, and the vote leaves with nil extension signatures
    and without a signature. *)
Lemma failed_replay_overwrites_extension_signatures_witness :
  (Vote_ExtensionSignature (st_msg Toy.st_conflict) = None
   /\ Vote_ExtensionSignature (st_msg (fst (signVote "chain" true 7 Toy.st_conflict)))
      <> None
   /\ Vote_Signature (st_msg (fst (signVote "chain" true 7 Toy.st_conflict)))
      = Vote_Signature (st_msg Toy.st_conflict)
   /\ PrivKey_Sign Toy.key
        (fst (VoteExtensionSignBytes "chain" (st_msg Toy.st_conflict)))
      = inl (Vote_ExtensionSignature
               (st_msg (fst (signVote "chain" true 7 Toy.st_conflict))))
   /\ PrivKey_Sign Toy.key
        (snd (VoteExtensionSignBytes "chain" (st_msg Toy.st_conflict)))
      = inl (Vote_NonRpExtensionSignature
               (st_msg (fst (signVote "chain" true 7 Toy.st_conflict)))))
  /\ (snd (signVote "chain" true 0 Toy.st_garbled)
      = Panic "LastSignBytes cannot be unmarshalled into vote: malformed header"
      /\ Vote_Signature (st_msg (fst (signVote "chain" true 0 Toy.st_garbled)))
         = Vote_Signature (st_msg Toy.st_garbled)
      /\ Vote_ExtensionSignature (st_msg (fst (signVote "chain" true 0 Toy.st_garbled)))
         = None
      /\ Vote_NonRpExtensionSignature
           (st_msg (fst (signVote "chain" true 0 Toy.st_garbled))) = None).
Proof.
  split.
  - destruct (@failed_replay_overwrites_extension_signatures
                Toy.scheme Toy.proto Toy.encoder Toy.filesystem Toy.codec
                "chain" 7 Toy.st_conflict
                ltac:(left; vm_compute; reflexivity))
      as (Hsig & Hpre & _).
    destruct Hpre as [(sk1 & Hk1 & Hs1) (sk2 & Hk2 & Hs2)];
      [split; vm_compute; reflexivity |].
    assert (E1 : sk1 = Toy.key) by (vm_compute in Hk1; inversion Hk1; reflexivity).
    assert (E2 : sk2 = Toy.key) by (vm_compute in Hk2; inversion Hk2; reflexivity).
    subst sk1 sk2.
    repeat split; try assumption.
    vm_compute. discriminate.
  - assert (Hfail : fails_in_resolver "chain" 0 Toy.st_garbled).
    { right. exists stepPrevote.
      exists "LastSignBytes cannot be unmarshalled into vote: malformed header"%string.
      repeat split; vm_compute; reflexivity. }
    destruct (@failed_replay_overwrites_extension_signatures
                Toy.scheme Toy.proto Toy.encoder Toy.filesystem Toy.codec
                "chain" 0 Toy.st_garbled Hfail)
      as (Hsig & _ & Hoth).
    destruct Hoth as (_ & _ & H1 & H2).
    { intros [Hty _]. vm_compute in Hty. discriminate. }
    split; [vm_compute; reflexivity |]. auto.
Defined.

End Examples.

(** * The further properties at concrete inputs *)

Section FurtherExamples.
Local Existing Instance Toy.scheme.
Local Existing Instance Toy.proto.
Local Existing Instance Toy.encoder.
Local Existing Instance Toy.filesystem.
Local Existing Instance Toy.codec.

(** The precommit signed by the validator that signed the prevote: the
    watermark is at (10, 0, 3) with the signature the vote carries. *)
Lemma success_sets_watermark_witness :
  hrs_of (LastSignState (st_pv (fst (signVote "chain" true 0 Toy.st_fresh_precommit))))
  = (10, 0, stepPrecommit)
  /\ Signature (LastSignState
                  (st_pv (fst (signVote "chain" true 0 Toy.st_fresh_precommit))))
     = Vote_Signature (st_msg (fst (signVote "chain" true 0 Toy.st_fresh_precommit))).
Proof.
  exact (proj1 (@success_sets_watermark
                  Toy.scheme Toy.proto Toy.encoder Toy.filesystem Toy.codec
                  "chain" 0)
           true Toy.st_fresh_precommit stepPrecommit
           ltac:(vm_compute; reflexivity) ltac:(vm_compute; reflexivity)).
Defined.

(** The precommit asked for twice, the second time with a later timestamp
    and another extension: both calls hand out the same signature. *)
Lemma one_signature_per_height_round_step_witness :
  let reqs := [ReqVote "chain" Toy.precommit true 0;
               ReqVote "chain" (Toy.vote_at PrecommitType 10 [x01] 105 (Some [x08]))
                 true 7] in
  List.length (handed_out reqs Toy.node_prevoted) = 2%nat
  /\ nth 0 (map snd (handed_out reqs Toy.node_prevoted)) None
     = nth 1 (map snd (handed_out reqs Toy.node_prevoted)) None.
Proof.
  cbv zeta. split; [vm_compute; reflexivity |].
  apply (@one_signature_per_height_round_step
           Toy.scheme Toy.proto Toy.encoder Toy.filesystem Toy.codec
           Toy.node_prevoted
           [ReqVote "chain" Toy.precommit true 0;
            ReqVote "chain" (Toy.vote_at PrecommitType 10 [x01] 105 (Some [x08]))
              true 7]
           (10, 0, stepPrecommit)).
  - vm_compute. left. reflexivity.
  - vm_compute. right. left. reflexivity.
Defined.

(** The sample scheme never signs with nil, and the fresh validator has no
    sign bytes: after the prevote and the precommit its watermark is not
    corrupt and [CheckHRS] on it does not panic. *)
Lemma watermark_stays_consistent_witness :
  ~ corrupt (LastSignState (node_pv Toy.node_precommitted))
  /\ forall (h r s : Z) (m : string),
       CheckHRS (LastSignState (node_pv Toy.node_precommitted)) h r s <> Panic m.
Proof.
  apply (@watermark_stays_consistent
           Toy.scheme Toy.proto Toy.encoder Toy.filesystem Toy.codec
           Toy.node0
           [ReqVote "chain" Toy.prevote false 0; ReqVote "chain" Toy.precommit true 0]).
  - intros sk msg sig H. destruct sk; cbn in H; inversion H; discriminate.
  - intros [H _]. apply H. reflexivity.
Defined.

(** The fresh validator saved into the empty file system: the key file and
    then the state file are written. *)
Lemma Save_writes_key_then_state_witness :
  snd (@FilePV_Save Toy.scheme Toy.filesystem Toy.codec unit
         (Toy.state_of Toy.node0 tt)) = Ok tt
  /\ map fst (st_fs (fst (@FilePV_Save Toy.scheme Toy.filesystem Toy.codec unit
                            (Toy.state_of Toy.node0 tt))))
     = ["/pv/state.json"; "/pv/key.json"]%string.
Proof.
  pose (keyJSON := match Toy.marshal_key (Key Toy.pv0) with
                   | inl b => b
                   | inr _ => None
                   end).
  pose (stateJSON := match Toy.marshal_state (LastSignState Toy.pv0) with
                     | inl b => b
                     | inr _ => None
                     end).
  pose (fs1 := [("/pv/key.json"%string, keyJSON)] : FS).
  pose (fs2 := ("/pv/state.json"%string, stateJSON) :: fs1 : FS).
  destruct (@Save_writes_key_then_state Toy.scheme Toy.filesystem Toy.codec unit
              (Toy.state_of Toy.node0 tt)) as (_ & Hw & _).
  destruct (Hw keyJSON fs1) as [Hok _]; try (vm_compute; reflexivity).
  { vm_compute. discriminate. }
  destruct (Hok stateJSON fs2) as [Hr Hfs]; try (vm_compute; reflexivity).
  { vm_compute. discriminate. }
  split; [exact Hr |]. rewrite Hfs. reflexivity.
Defined.

(** The precommit signed, and then put again with another extension to the
    validator that holds the watermark of the first call: the second call
    returns the signature of the first and writes nothing. *)
Lemma resign_returns_same_signature_witness :
  let st2 := Toy.state_of Toy.node_precommitted
               (Toy.vote_at PrecommitType 10 [x01] 100 (Some [x08])) in
  snd (signVote "chain" true 7 st2) = Ok tt
  /\ Vote_Signature (st_msg (fst (signVote "chain" true 7 st2)))
     = Vote_Signature (st_msg (fst (signVote "chain" true 0 Toy.st_fresh_precommit)))
  /\ st_pv (fst (signVote "chain" true 7 st2)) = st_pv st2
  /\ st_fs (fst (signVote "chain" true 7 st2)) = st_fs st2
  /\ st_trace (fst (signVote "chain" true 7 st2))
     = st_trace st2
       ++ [EvSetSignature
             (Vote_Signature
                (st_msg (fst (signVote "chain" true 0 Toy.st_fresh_precommit))))].
Proof.
  cbv zeta.
  destruct (@resign_returns_same_signature
              Toy.scheme Toy.proto Toy.encoder Toy.filesystem Toy.codec
              "chain" true 0 Toy.st_fresh_precommit stepPrecommit
              "chain" true 7
              (Toy.state_of Toy.node_precommitted
                 (Toy.vote_at PrecommitType 10 [x01] 100 (Some [x08])))
              ltac:(vm_compute; reflexivity) ltac:(vm_compute; reflexivity)
              ltac:(vm_compute; reflexivity) ltac:(vm_compute; discriminate)
              ltac:(vm_compute; discriminate) ltac:(vm_compute; reflexivity)
              ltac:(vm_compute; reflexivity) ltac:(vm_compute; reflexivity))
    as [Hret _].
  apply Hret; vm_compute; reflexivity.
Defined.

(** After the precommit at (10, 0), a proposal and a prevote for height 10
    and round 0 are refused with a step regression and change nothing. *)
Lemma steps_go_forward_witness :
  signProposal "chain" 7 (Toy.state_of Toy.node_precommitted (Toy.proposal_at 10 100))
  = (Toy.state_of Toy.node_precommitted (Toy.proposal_at 10 100),
     Err (ErrStepRegression 10 0 stepPropose stepPrecommit))
  /\ signVote "chain" false 7 (Toy.state_of Toy.node_precommitted Toy.prevote)
     = (Toy.state_of Toy.node_precommitted Toy.prevote,
        Err (ErrStepRegression 10 0 stepPrevote stepPrecommit)).
Proof.
  destruct (@steps_go_forward
              Toy.scheme Toy.proto Toy.encoder Toy.filesystem Toy.codec
              "chain" true 0 Toy.st_fresh_precommit stepPrecommit
              ltac:(vm_compute; reflexivity) ltac:(vm_compute; reflexivity))
    as [Hprop Hvote].
  split.
  - apply (Hprop "chain" 7
             (Toy.state_of Toy.node_precommitted (Toy.proposal_at 10 100)));
      vm_compute; reflexivity.
  - apply (Hvote ltac:(vm_compute; reflexivity) "chain" false 7
             (Toy.state_of Toy.node_precommitted Toy.prevote));
      vm_compute; reflexivity.
Defined.

(** Two failures of the connection and then a value, with three attempts
    allowed: three calls, two sleeps of 100, and the value is returned. *)
Lemma retry_returns_first_decisive_answer_witness :
  Retry_SignVote Scripted.time_Sleep 5 (Scripted.client 3) "chain" false
    Scripted.w_flaky
  = Some (mkRetried (([], 200) : Scripted.World) 3 (inl tt)).
Proof.
  apply (@retry_returns_first_decisive_answer
           Toy.scheme Scripted.World Scripted.time_Sleep unit (Scripted.client 3) "sign vote"
           (next_SignVote (Scripted.client 3) "chain" false) 2 5
           Scripted.w_flaky ([inl tt], 200) ([], 200)
           (Some (OtherError "connection reset")) (inl tt)).
  - exact (@fails_again Scripted.World Scripted.time_Sleep unit 100 Scripted.next 1
             Scripted.w_flaky
             ([inr (OtherError "connection reset"); inl tt], 0) ([inl tt], 200)
             "i/o timeout" (Some (OtherError "connection reset")) eq_refl
             (@fails_again Scripted.World Scripted.time_Sleep unit 100 Scripted.next 0
                ([inr (OtherError "connection reset"); inl tt], 100)
                ([inl tt], 100) ([inl tt], 200)
                "connection reset" None eq_refl
                (@fails_none Scripted.World Scripted.time_Sleep unit 100 Scripted.next
                   ([inl tt], 200)))).
  - reflexivity.
  - exact I.
  - left. vm_compute. reflexivity.
  - apply Nat.ltb_lt. reflexivity.
Defined.

(** A dead connection with two attempts allowed: two calls, two sleeps, and
    the error that wraps the last failure. *)
Lemma retry_gives_up_after_retries_witness :
  Retry_SignProposal Scripted.time_Sleep 2 (Scripted.client 2) "chain"
    Scripted.w_dead
  = Some (mkRetried (([], 200) : Scripted.World) 2
            (inr (ErrExhausted "sign proposal"
                    (Some (OtherError "connection closed"))))).
Proof.
  apply (@retry_gives_up_after_retries
           Toy.scheme Scripted.World Scripted.time_Sleep unit (Scripted.client 2) "sign proposal"
           (next_SignProposal (Scripted.client 2) "chain") 2
           Scripted.w_dead ([], 200) (Some (OtherError "connection closed"))).
  - vm_compute. reflexivity.
  - exact (@fails_again Scripted.World Scripted.time_Sleep unit 100 Scripted.next 1
             Scripted.w_dead ([], 0) ([], 200)
             "connection closed" (Some (OtherError "connection closed")) eq_refl
             (@fails_again Scripted.World Scripted.time_Sleep unit 100 Scripted.next 0
                ([], 100) ([], 100) ([], 200)
                "connection closed" None eq_refl
                (@fails_none Scripted.World Scripted.time_Sleep unit 100 Scripted.next
                   ([], 200)))).
  - apply Nat.leb_le. reflexivity.
Defined.

(** A negative number of retries: no call and no sleep, whatever the signer
    would have answered. *)
Lemma retry_negative_makes_no_attempt_witness :
  Retry_SignVote Scripted.time_Sleep 0 (Scripted.client (-1)) "chain" false
    Scripted.w_flaky
  = Some (mkRetried Scripted.w_flaky 0 (inr (ErrExhausted "sign vote" None))).
Proof.
  apply (@retry_negative_makes_no_attempt
           Toy.scheme Scripted.World Scripted.time_Sleep unit (Scripted.client (-1)) "sign vote"
           (next_SignVote (Scripted.client (-1)) "chain" false) 0 Scripted.w_flaky).
  vm_compute. reflexivity.
Defined.

(** The refusal of the signer ends the loop at the second of three attempts
    allowed; and with no bound the dead connection is still being retried
    when the fuel is spent, and what a run with no bound returns is not the
    error of giving up. *)
Lemma retry_bound_witness :
  (forall out : Retried Scripted.World unit,
      Retry_SignVote Scripted.time_Sleep 5 (Scripted.client 3) "chain" false
        Scripted.w_refused = Some out ->
      Z.of_nat (r_calls out) <= 3)
  /\ (forall out : Retried Scripted.World unit,
         Retry_SignVote Scripted.time_Sleep 5 (Scripted.client 0) "chain" false
           Scripted.w_flaky = Some out ->
         r_result out <> inr (ErrExhausted "sign vote" None)).
Proof.
  split; intros out H.
  - apply (@retry_bound
             Toy.scheme Scripted.World Scripted.time_Sleep unit (Scripted.client 3)
             "sign vote" (next_SignVote (Scripted.client 3) "chain" false) 5
             Scripted.w_refused out H).
    vm_compute. reflexivity.
  - apply (@retry_bound
             Toy.scheme Scripted.World Scripted.time_Sleep unit (Scripted.client 0)
             "sign vote" (next_SignVote (Scripted.client 0) "chain" false) 5
             Scripted.w_flaky out H).
    reflexivity.
Defined.

(** The sample validator has the address and the public key of its private
    key when it is made, and still after it signed the prevote and the
    precommit. *)
Lemma identity_is_derived_from_private_key_witness :
  key_derived (NewFilePV (Toy.key : crypto_PrivKey) "/pv/key.json" "/pv/state.json")
  /\ key_derived (node_pv Toy.node_precommitted).
Proof.
  destruct (@identity_is_derived_from_private_key
              Toy.scheme Toy.proto Toy.encoder Toy.filesystem Toy.codec)
    as (Hnew & _ & Hrun & _).
  split; [apply Hnew |].
  apply (Hrun Toy.node0
           [ReqVote "chain" Toy.prevote false 0; ReqVote "chain" Toy.precommit true 0]).
  apply Hnew.
Defined.

(** The sample file system reads back what was written. *)
Lemma sample_read_after_write :
  @read_after_write Toy.filesystem.
Proof.
  intros fs path data fs' H. cbn in H.
  destruct (String.prefix "/ro/" path); inversion H; subst. cbn. split.
  - rewrite String.eqb_refl. reflexivity.
  - intros p Hp. destruct (String.eqb_spec path p); [congruence | reflexivity].
Qed.

(** The fresh validator is saved, and then signs the prevote: its files load
    to the watermark of the prevote. *)
Lemma state_file_follows_watermark_witness :
  on_disk (fst (serve (ReqVote "chain" Toy.prevote false 0)
                  (node_of (fst (@FilePV_Save Toy.scheme Toy.filesystem Toy.codec unit
                                   (Toy.state_of Toy.node0 tt)))))).
Proof.
  apply (@state_file_follows_watermark
           Toy.scheme Toy.proto Toy.encoder Toy.filesystem Toy.codec
           (ReqVote "chain" Toy.prevote false 0)
           (node_of (fst (@FilePV_Save Toy.scheme Toy.filesystem Toy.codec unit
                            (Toy.state_of Toy.node0 tt))))).
  - exact sample_read_after_write.
  - vm_compute. discriminate.
  - intros b H.
    exists (match Toy.unmarshal_state b with
            | inl l => l
            | inr _ => emptyLSS ""
            end).
    vm_compute in H. inversion H; subst b. repeat split; vm_compute; reflexivity.
  - intros m H. vm_compute in H. discriminate.
  - exists (mkFilePV (Key Toy.pv0) (LastSignState Toy.pv0)).
    split; vm_compute; reflexivity.
Defined.

(** The generator of the caller yields the sample key, which is not the one
    [ed25519.GenPrivKey] would yield: the validator is made of the sample key
    and saved into the empty file system, and the next call loads it from the
    two files, whatever the generator would yield then. *)
Lemma generated_validator_loads_again_witness :
  @LoadOrGenFilePV Toy.scheme Toy.filesystem Toy.codec Disk.FileExists [x01]
    (@nil (string * bytes)) "/pv/key.json" "/pv/state.json"
    (Some (inl (Some Toy.key)))
  = (Disk.fs_generated, Ok Toy.pv0)
  /\ @LoadOrGenFilePV Toy.scheme Toy.filesystem Toy.codec Disk.FileExists [x01]
       Disk.fs_generated "/pv/key.json" "/pv/state.json" (Some (inr "no entropy"))
     = (Disk.fs_generated, Ok Toy.pv0).
Proof.
  split; [vm_compute; reflexivity |].
  apply (@generated_validator_loads_again
           Toy.scheme Toy.filesystem Toy.codec Disk.FileExists [x01]
           (@nil (string * bytes)) Disk.fs_generated "/pv/key.json" "/pv/state.json"
           (Some (inl (Some Toy.key))) Toy.pv0).
  - exact sample_read_after_write.
  - intros fs path data H. unfold Disk.FileExists.
    change (@os_ReadFile Toy.filesystem fs path) with (Toy.lookup_file fs path) in H.
    rewrite H. reflexivity.
  - vm_compute. discriminate.
  - reflexivity.
  - vm_compute. reflexivity.
  - intros b H.
    exists (match Toy.unmarshal_key b with
            | inl k => k
            | inr _ => Key Toy.pv0
            end).
    vm_compute in H. inversion H; subst b. split; vm_compute; reflexivity.
  - intros b H.
    exists (match Toy.unmarshal_state b with
            | inl l => l
            | inr _ => emptyLSS ""
            end).
    vm_compute in H. inversion H; subst b. repeat split; vm_compute; reflexivity.
Defined.

End FurtherExamples.
